(** * erfa/cython_generator.py: signature extraction, verified

    A shallow embedding of the extraction core of [cython_generator.py]
    (classes [FunctionDoc], [ArgumentDoc], [Argument], [Return] and
    [Function], the table [ctype_to_dtype], and the loops of [main] that
    collect the functions of a header) together with the part of Python's
    [str] and [re] that this code calls.

    Python strings are lists of characters; the sources being scanned are C
    files, so a character is an [ascii], read as a code point below 256.
    Exceptions are values of [exn] and code that may raise returns a
    [result]. *)

From Stdlib Require Import Ascii String.
From stdpp Require Import base option list strings pretty gmap.

Abbreviation str := (list ascii).
Coercion list_ascii_of_string : string >-> list.

(** ** Exceptions *)

Inductive exn : Type :=
| AttributeError (msg : str)
| ValueError (msg : str)
| KeyError (key : str)
| IndexError (msg : str)
| TypeError (msg : str)
| IOError (path : str).

Inductive result (A : Type) : Type :=
| Ok (a : A)
| Raise (e : exn).
Arguments Ok {A} a.
Arguments Raise {A} e.

Global Instance result_bind : MBind result := fun A B k m =>
  match m with
  | Ok a => k a
  | Raise e => Raise e
  end.

(** ** The [str] methods the generator calls *)

Definition chr_eqb (a b : ascii) : bool := Ascii.eqb a b.

Definition str_eqb (a b : str) : bool := bool_decide (a = b).

Definition nl : ascii := "010"%char.

(** [c in s] for a one-character [c]. *)
Definition contains (c : ascii) (s : str) : bool := existsb (chr_eqb c) s.

Fixpoint startswith (p s : str) : bool :=
  match p, s with
  | [], _ => true
  | a :: p', b :: s' => chr_eqb a b && startswith p' s'
  | _ :: _, [] => false
  end.

(** [p in s] for a text [p]. *)
Fixpoint occurs (p s : str) : bool :=
  startswith p s ||
  match s with
  | [] => false
  | _ :: s' => occurs p s'
  end.

(** [str.isspace] on the code points below 256. *)
Definition isspace (c : ascii) : bool :=
  let n := nat_of_ascii c in
  ((9 <=? n) && (n <=? 13)) || ((28 <=? n) && (n <=? 32))
  || (n =? 133) || (n =? 160).

Fixpoint lstrip (s : str) : str :=
  match s with
  | c :: s' => if isspace c then lstrip s' else s
  | [] => []
  end.

Definition rstrip (s : str) : str := rev (lstrip (rev s)).

Definition strip (s : str) : str := rstrip (lstrip s).

(** [s.lower()] on the code points below 256: the ASCII capitals and the
    capitals from 192 to 222, the multiplication sign at 215 apart, are
    moved up by 32. *)
Definition lower_chr (c : ascii) : ascii :=
  let n := nat_of_ascii c in
  if ((65 <=? n) && (n <=? 90))
     || ((192 <=? n) && (n <=? 222) && negb (n =? 215))
  then ascii_of_nat (n + 32) else c.

Definition lower (s : str) : str := map lower_chr s.

(** [sep.join(l)] *)
Fixpoint join (sep : str) (l : list str) : str :=
  match l with
  | [] => []
  | [x] => x
  | x :: l' => x ++ sep ++ join sep l'
  end.

(** [s.split(sep)] for a non-empty [sep]: [skip] counts the characters of a
    separator just recognised that are still to be passed over, [cur] is the
    piece being read, reversed. *)
Fixpoint split_go (sep : str) (skip : nat) (cur : str) (s : str) : list str :=
  match s with
  | [] => [rev cur]
  | c :: s' =>
      match skip with
      | S k => split_go sep k cur s'
      | O =>
          if startswith sep s
          then rev cur :: split_go sep (length sep - 1) [] s'
          else split_go sep 0 (c :: cur) s'
      end
  end.

Definition split (sep : str) (s : str) : list str := split_go sep 0 [] s.

(** The first occurrence of [sep] in [s]: the text before it and after it. *)
Fixpoint partition (sep : str) (s : str) : option (str * str) :=
  if startswith sep s then Some ([], drop (length sep) s)
  else
    match s with
    | [] => None
    | c :: s' =>
        match partition sep s' with
        | Some (a, b) => Some (c :: a, b)
        | None => None
        end
    end.

(** [s.split(sep, 1)] *)
Definition split1 (sep : str) (s : str) : list str :=
  match partition sep s with
  | Some (a, b) => [a; b]
  | None => [s]
  end.

(** [s.rsplit(sep, 1)] *)
Definition rsplit1 (sep : str) (s : str) : list str :=
  match partition (rev sep) (rev s) with
  | Some (b, a) => [rev a; rev b]
  | None => [s]
  end.

(** [s.replace(old, new)] for a non-empty [old]. *)
Fixpoint replace_go (old new : str) (skip : nat) (s : str) : str :=
  match s with
  | [] => []
  | c :: s' =>
      match skip with
      | S k => replace_go old new k s'
      | O =>
          if startswith old s
          then new ++ replace_go old new (length old - 1) s'
          else c :: replace_go old new 0 s'
      end
  end.

Definition replace (old new : str) (s : str) : str := replace_go old new 0 s.

(** ** The fragment of [re] the generator uses

    Every quantifier in the patterns of the module applies to a single
    character or character class, groups are not nested, and [^] only occurs
    first in a pattern compiled without [re.MULTILINE].  A pattern is
    therefore a sequence of items, matched by backtracking in the priority
    order of [re]: a greedy repetition tries the longest run first, a lazy
    one the shortest. *)

Inductive item : Type :=
| Lit (c : ascii)                                   (* a literal character *)
| Rep (cls : ascii -> bool) (lo : nat) (greedy : bool)
                                  (* cls{lo,} when greedy, cls{lo,}? when not *)
| Opt (c : ascii)                                   (* c? *)
| GOpen                                             (* ( *)
| GClose.                                           (* ) *)

Record regex : Type := Regex {
  anchored : bool;          (* the pattern starts with ^ *)
  items : list item
}.

Definition lits (s : str) : list item := map Lit s.

Section Repetition.
Context {A : Type}.
Variable cls : ascii -> bool.
Variable lo : nat.
Variable k : str -> option A.

(** [n] characters of the class have been consumed so far. *)
Fixpoint rep_greedy (n : nat) (s : str) : option A :=
  match s with
  | c :: s' =>
      if cls c then
        match rep_greedy (S n) s' with
        | Some r => Some r
        | None => if lo <=? n then k s else None
        end
      else if lo <=? n then k s else None
  | [] => if lo <=? n then k s else None
  end.

Fixpoint rep_lazy (n : nat) (s : str) : option A :=
  match (if lo <=? n then k s else None) with
  | Some r => Some r
  | None =>
      match s with
      | c :: s' => if cls c then rep_lazy (S n) s' else None
      | [] => None
      end
  end.
End Repetition.

(** [cur] is the subject text at the last [GOpen], [done] the groups closed
    so far, most recent first.  The result is the list of groups in pattern
    order and the text left after the match. *)
Fixpoint match_items (r : list item) (cur : str) (done : list str) (s : str)
  : option (list str * str) :=
  match r with
  | [] => Some (rev done, s)
  | Lit c :: r' =>
      match s with
      | x :: s' => if chr_eqb x c then match_items r' cur done s' else None
      | [] => None
      end
  | Rep cls lo true :: r' => rep_greedy cls lo (match_items r' cur done) 0 s
  | Rep cls lo false :: r' => rep_lazy cls lo (match_items r' cur done) 0 s
  | Opt c :: r' =>
      match
        match s with
        | x :: s' => if chr_eqb x c then match_items r' cur done s' else None
        | [] => None
        end
      with
      | Some m => Some m
      | None => match_items r' cur done s
      end
  | GOpen :: r' => match_items r' s done s
  | GClose :: r' =>
      match_items r' cur (take (length cur - length s) cur :: done) s
  end.

(** A match object: where the match starts and the text of its groups. *)
Record MatchObject : Type := Match {
  mstart : nat;
  groups : list str
}.

(** [m.group(n)], [n >= 1]; every group of the patterns below takes part in
    every match. *)
Definition group (m : MatchObject) (n : nat) : str :=
  default [] (groups m !! (n - 1)).

Definition match_at (r : list item) (i : nat) (s : str) : option MatchObject :=
  match match_items r s [] s with
  | Some (gs, _) => Some (Match i gs)
  | None => None
  end.

(** The leftmost match at or after the current position [i]; the empty
    suffix is tried last, as [re.search] does. *)
Fixpoint search_from (r : list item) (i : nat) (s : str) : option MatchObject :=
  match match_at r i s with
  | Some m => Some m
  | None =>
      match s with
      | [] => None
      | _ :: s' => search_from r (S i) s'
      end
  end.

(** [re.search(pattern, s)] *)
Definition re_search (p : regex) (s : str) : option MatchObject :=
  if anchored p then match_at (items p) 0 s else search_from (items p) 0 s.

(** Character classes *)
Definition any (c : ascii) : bool := true.                 (* . with DOTALL *)
Definition not_chr (x : ascii) (c : ascii) : bool := negb (chr_eqb c x).
Definition is_chr (x : ascii) (c : ascii) : bool := chr_eqb c x.
Definition dot : ascii -> bool := not_chr nl.              (* . without DOTALL *)


(** ** The table of storage descriptors *)

Definition ctype_table : list (str * str) :=
    [ ("double" : str,       "numpy.double" : str);
      ("double *" : str,     "numpy.double" : str);
      ("int" : str,          "numpy.int" : str);
      ("int *" : str,        "numpy.int" : str);
      ("int[4]" : str,       "numpy.dtype([('', 'i', (4,))])" : str);
      ("double[2]" : str,    "numpy.dtype([('', 'd', (2,))])" : str);
      ("double[3]" : str,    "numpy.dtype([('p', 'd', (3,))])" : str);
      ("double[2][3]" : str, "numpy.dtype([('pv', 'd', (2,3))])" : str);
      ("double[3][3]" : str, "numpy.dtype([('r', 'd', (3,3))])" : str);
      ("eraASTROM *" : str,  "dt_eraASTROM" : str);
      ("char *" : str,       "numpy.dtype('S1')" : str) ].

Definition ctype_to_dtype : gmap str str := list_to_map ctype_table.

(** [ctype_to_dtype[key]] *)
Definition dict_getitem (d : gmap str str) (key : str) : result str :=
  match d !! key with
  | Some v => Ok v
  | None => Raise (KeyError key)
  end.

(** ** class ArgumentDoc *)

Record ArgumentDoc : Type := mkArgumentDoc {
  ad_name : option str;
  ad_type : option str;
  ad_doc : option str
}.

(** The pattern of [ArgumentDoc.__init__]: at the start of the line one or
    more spaces, a group of non-spaces (the name), spaces, a group of
    non-spaces (the type), spaces, and a group of one or more characters other
    than a newline (the description); all repetitions are greedy. *)
Definition argdoc_re : regex :=
  Regex true
    [ Rep (is_chr " ") 1 true;
      GOpen; Rep (not_chr " ") 1 true; GClose;
      Rep (is_chr " ") 1 true;
      GOpen; Rep (not_chr " ") 1 true; GClose;
      Rep (is_chr " ") 1 true;
      GOpen; Rep dot 1 true; GClose ].

Definition ArgumentDoc_init (doc : str) : ArgumentDoc :=
  match re_search argdoc_re doc with
  | Some m =>
      mkArgumentDoc (Some (group m 1)) (Some (group m 2)) (Some (group m 3))
  | None => mkArgumentDoc None None None
  end.

(** [format(s, "15")] for a string: padded with spaces on the right up to
    the width. *)
Definition ljust (width : nat) (s : str) : str :=
  s ++ replicate (width - length s) " "%char.

Definition format_none_error : exn :=
  TypeError "unsupported format string passed to NoneType.__format__".

(** [ArgumentDoc.__repr__]: four spaces, the name and the type in columns
    of width 15, and the description.  A width cannot be applied to [None],
    while a plain field prints it. *)
Definition ArgumentDoc_repr (a : ArgumentDoc) : result str :=
  match ad_name a, ad_type a with
  | Some name, Some type =>
      Ok (("    " : str) ++ ljust 15 name ++ (" " : str) ++ ljust 15 type
          ++ (" " : str) ++ default ("None" : str) (ad_doc a))
  | _, _ => Raise format_none_error
  end.

(** ** class FunctionDoc

    [fd_doc] is the attribute [doc].  The two caches [__input] and
    [__output] are filled on first use from [doc], which is never
    assigned again, and the cached lists are never mutated afterwards, so
    the properties are functions of [doc]. *)

Record FunctionDoc : Type := mkFunctionDoc {
  fd_doc : str
}.

Definition FunctionDoc_init (doc : str) : FunctionDoc :=
  mkFunctionDoc (replace "*/" "  " (replace "/*" "  " (replace "**" "  " doc))).

(** The section pattern of [FunctionDoc], compiled with [re.DOTALL]: the
    header (one of Given, Returned, Given and returned), group 1 of any
    characters but newlines (greedy, possibly empty), a colon and a newline,
    group 2 of one or more characters of any kind (lazy), two spaces and a
    newline. *)
Definition section_tail : list item :=
  [ GOpen; Rep (not_chr nl) 0 true; GClose; Lit ":"; Lit nl;
    GOpen; Rep any 1 false; GClose; Lit " "; Lit " "; Lit nl ].

Definition section_re (header : str) : regex :=
  Regex false (lits header ++ section_tail).

(** The loop over the lines of a section, appending to [acc] the entries
    whose name is not [None]. *)
Fixpoint append_entries (acc : list ArgumentDoc) (lines : list str)
  : list ArgumentDoc :=
  match lines with
  | [] => acc
  | i :: rest =>
      let arg_doc := ArgumentDoc_init i in
      match ad_name arg_doc with
      | Some _ => append_entries (acc ++ [arg_doc]) rest
      | None => append_entries acc rest
      end
  end.

(** One [re.search] of a section and the loop over its lines. *)
Definition add_section (header : str) (doc : str) (acc : list ArgumentDoc)
  : list ArgumentDoc :=
  match re_search (section_re header) doc with
  | Some found => append_entries acc (split [nl] (group found 2))
  | None => acc
  end.

Definition FunctionDoc_input (d : FunctionDoc) : list ArgumentDoc :=
  add_section "Given and returned" (fd_doc d)
    (add_section "Given" (fd_doc d) []).

Definition FunctionDoc_output (d : FunctionDoc) : list ArgumentDoc :=
  add_section "Given and returned" (fd_doc d)
    (add_section "Returned" (fd_doc d) []).

(** ** class Argument *)

Record Argument : Type := mkArgument {
  arg_doc : FunctionDoc;            (* __doc, shared by all arguments *)
  arg_definition : str;
  arg_ctype : str;
  arg_name : str
}.

Definition unpack_error : exn :=
  ValueError "not enough values to unpack (expected 2, got 1)".

Definition Argument_init (definition : str) (doc : FunctionDoc)
  : result Argument :=
  let definition := strip definition in
  if contains "*" definition then
    match split1 "*" definition with
    | [ctype; name] => Ok (mkArgument doc definition (ctype ++ "*") name)
    | _ => Raise unpack_error
    end
  else
    match rsplit1 " " definition with
    | [ctype; name] =>
        if contains "[" name then
          match split1 "[" name with
          | [name'; arr] =>
              Ok (mkArgument doc definition (ctype ++ ("[" : str) ++ arr) name')
          | _ => Raise unpack_error
          end
        else Ok (mkArgument doc definition ctype name)
    | _ => Raise unpack_error
    end.

Definition none_split_error : exn :=
  AttributeError "'NoneType' object has no attribute 'split'".

(** The body of the first loop of [inout_state], for one entry [i]. *)
Definition inout_in (name : str) (state : str) (i : ArgumentDoc) : result str :=
  match ad_name i with
  | None => Raise none_split_error
  | Some n => Ok (if bool_decide (name ∈ split "," n) then "in" : str else state)
  end.

(** The body of the second loop, for one entry [o]. *)
Definition inout_out (name : str) (state : str) (o : ArgumentDoc) : result str :=
  match ad_name o with
  | None => Raise none_split_error
  | Some n =>
      Ok (if bool_decide (name ∈ split "," n)
          then if str_eqb state "in" then "inout" : str else "out"
          else state)
  end.

Fixpoint for_each {A S} (body : S -> A -> result S) (l : list A) (st : S)
  : result S :=
  match l with
  | [] => Ok st
  | x :: l' => st' ← body st x; for_each body l' st'
  end.

(** [inout_state] computed from given entry lists. *)
Definition inout_of (inputs outputs : list ArgumentDoc) (name : str)
  : result str :=
  st ← for_each (inout_in name) inputs ([] : str);
  for_each (inout_out name) outputs st.

(** The property [Argument.inout_state]; its cache holds the value computed
    here. *)
Definition Argument_inout_state (a : Argument) : result str :=
  inout_of (FunctionDoc_input (arg_doc a)) (FunctionDoc_output (arg_doc a))
           (arg_name a).

Definition index_error : exn := IndexError "string index out of range".

(** The property [Argument.ctype_ptr]. *)
Definition Argument_ctype_ptr (a : Argument) : result str :=
  match last (arg_ctype a) with
  | None => Raise index_error
  | Some c =>
      if chr_eqb c "]" then
        Ok (default [] (head (split "[" (arg_ctype a))) ++ (" *" : str))
      else if str_eqb (take 6 (arg_ctype a)) "const " then
        Ok (drop 6 (arg_ctype a))
      else Ok (arg_ctype a)
  end.

(** The property [Argument.dtype]. *)
Definition Argument_dtype (a : Argument) : result str :=
  dict_getitem ctype_to_dtype (arg_ctype a).

(** ** class Return *)

Record Return : Type := mkReturn {
  ret_name : str;
  ret_ctype : str;
  ret_inout_state : str;
  ret_ctype_ptr : str
}.

Definition Return_init (ctype : str) (doc : FunctionDoc) : Return :=
  mkReturn "ret" ctype "ret" ctype.

Definition Return_dtype (r : Return) : result str :=
  dict_getitem ctype_to_dtype (ret_ctype r).

(** ** class Function *)

(** The elements of [Function.args]: [Argument] and [Return] objects share
    the attributes the generator reads. *)
Inductive arg : Type :=
| AArg (a : Argument)
| ARet (r : Return).

Record Function : Type := mkFunction {
  fn_name : str;
  fn_pyname : str;
  fn_filename : str;
  fn_filepath : str;
  fn_cfunc : str;
  fn_doc : FunctionDoc;
  fn_args : list arg;
  fn_ret : str
}.

(** What [Function.__init__] asks of the operating system: [os.path.isdir],
    [os.path.normpath], and the text [open(path)] gives ([None] when the file
    cannot be opened). *)
Record FileSystem : Type := mkFileSystem {
  isdir : str -> bool;
  normpath : str -> str;
  read_file : str -> option str
}.

(** [os.path.join(a, b)] of [posixpath]. *)
Definition path_join (a b : str) : str :=
  if startswith "/" b then b
  else
    match last a with
    | None => b
    | Some c => if chr_eqb c "/" then a ++ b else a ++ ("/" : str) ++ b
    end.

(** The lines [f.readline()] returns in turn, each with its newline. *)
Fixpoint readlines_go (cur : str) (s : str) : list str :=
  match s with
  | [] => match cur with [] => [] | _ => [rev cur] end
  | c :: s' =>
      if chr_eqb c nl then rev (c :: cur) :: readlines_go [] s'
      else readlines_go (c :: cur) s'
  end.

Definition readlines (s : str) : list str := readlines_go [] s.

(** The [while] loop over the lines: at the first line that starts with
    [match_line] the contents are a newline, that line and the rest of the
    file. *)
Fixpoint skip_to (match_line : str) (lines : list str) : option str :=
  match lines with
  | [] => None
  | line :: rest =>
      if startswith match_line line
      then Some ([nl] ++ line ++ concat rest)
      else skip_to match_line rest
  end.

Definition dquote : ascii := "034"%char.

Definition match_line_error (match_line filepath : str) : exn :=
  ValueError (("Could not find the match_line " : str) ++ [dquote] ++ match_line
              ++ [dquote] ++ (" in the source file " : str) ++ [dquote]
              ++ filepath ++ [dquote]).

Definition none_group_error : exn :=
  AttributeError "'NoneType' object has no attribute 'group'".

(** The pattern locating a definition, compiled with [re.DOTALL]: a newline,
    group 1 made of one or more characters that are not newlines (greedy),
    the function name, an optional space, an opening parenthesis, one or more
    characters other than a closing parenthesis, and a closing parenthesis;
    then one or more characters of any kind (lazy), and group 2, a block
    comment from its opening to the first closing delimiter (lazy).  [name] is
    spliced into the pattern by [format] and read as pattern text.  The
    pattern below takes its characters literally, which is how [re] reads a
    name made of word characters (letters, digits, underscore); what [re]
    does with a name that holds pattern operators is outside this
    development, and the statements about where a declaration is found are
    about names made of word characters. *)
Definition func_re (name : str) : regex :=
  Regex false
    ([ Lit nl; GOpen; Rep (not_chr nl) 1 true ] ++ lits name ++
     [ Opt " "; Lit "("; Rep (not_chr ")") 1 true; Lit ")"; GClose;
       Rep any 1 false;
       GOpen; Lit "/"; Lit "*"; Rep any 1 false; Lit "*"; Lit "/"; GClose ]).

(** The pattern of the parameter list: a parenthesis, group 1 of one or more
    characters other than a closing parenthesis, a closing parenthesis. *)
Definition paren_re : regex :=
  Regex false [ Lit "("; GOpen; Rep (not_chr ")") 1 true; GClose; Lit ")" ].

(** The pattern of the return type, compiled without flags: at the start of
    the text, group 1 of characters other than newlines (greedy, possibly
    empty), then the function name, spliced in and read as in the pattern
    above. *)
Definition ret_re (name : str) : regex :=
  Regex true ([ GOpen; Rep dot 0 true; GClose ] ++ lits name).

(** [if match_line:] *)
Definition truthy (match_line : option str) : option str :=
  match match_line with
  | Some (c :: l) => Some (c :: l)
  | _ => None
  end.

(** The [with open(self.filepath) as f] block. *)
Definition read_contents (fs : FileSystem) (filepath : str)
    (match_line : option str) : result str :=
  match read_file fs filepath with
  | None => Raise (IOError filepath)
  | Some text =>
      match truthy match_line with
      | Some ml =>
          match skip_to ml (readlines text) with
          | Some filecontents => Ok filecontents
          | None => Raise (match_line_error ml filepath)
          end
      | None => Ok text
      end
  end.

(** The loop [for arg in ....split(','): self.args.append(Argument(arg, doc))]. *)
Definition append_argument (doc : FunctionDoc) (args : list arg) (a : str)
  : result (list arg) :=
  x ← Argument_init a doc; Ok (args ++ [AArg x]).

(** The attribute [filepath]: the file of the function inside a directory,
    or the single source file itself. *)
Definition Function_filepath (fs : FileSystem) (name source_path : str) : str :=
  let filename := lower (default [] (last (split "era" name))) ++ (".c" : str) in
  if isdir fs source_path
  then path_join (normpath fs source_path) filename
  else source_path.

Definition Function_init (fs : FileSystem) (name source_path : str)
    (match_line : option str) : result Function :=
  let pyname := lower (default [] (last (split "era" name))) in
  let filename := lower (default [] (last (split "era" name))) ++ (".c" : str) in
  let filepath := Function_filepath fs name source_path in
  filecontents ← read_contents fs filepath match_line;
  match re_search (func_re name) filecontents with
  | None => Raise none_group_error
  | Some search =>
      let cfunc := group search 1 in
      let doc := FunctionDoc_init (group search 2) in
      match re_search paren_re cfunc with
      | None => Raise none_group_error
      | Some m =>
          args ← for_each (append_argument doc) (split "," (group m 1)) [];
          match re_search (ret_re name) cfunc with
          | None => Raise none_group_error
          | Some m' =>
              let ret := strip (group m' 1) in
              let args :=
                if str_eqb ret "double"
                then args ++ [ARet (Return_init ret doc)]
                else args in
              Ok (mkFunction name pyname filename filepath cfunc doc args ret)
          end
      end
  end.

(** Attribute access on the elements of [args]. *)
Definition arg_inout_state (a : arg) : result str :=
  match a with
  | AArg x => Argument_inout_state x
  | ARet r => Ok (ret_inout_state r)
  end.

Definition arg_name_of (a : arg) : str :=
  match a with
  | AArg x => arg_name x
  | ARet r => ret_name r
  end.

Definition arg_ctype_of (a : arg) : str :=
  match a with
  | AArg x => arg_ctype x
  | ARet r => ret_ctype r
  end.

(** The name of the class of an element, as error messages print it. *)
Definition class_name (a : arg) : str :=
  match a with
  | AArg _ => "Argument"
  | ARet _ => "Return"
  end.

Definition no_attribute (cls prop : str) : exn :=
  AttributeError (("'" : str) ++ cls ++ ("' object has no attribute '" : str)
                  ++ prop ++ ("'" : str)).

(** The attributes a caller of [args_by_inout] may name in [prop]: the data
    attributes and properties that the two classes define.  For any other
    text [getattr] gives whatever Python binds to that name (a method, the
    docstring, a mangled private field), which this development leaves
    out. *)
Inductive attribute : Type :=
| AName | ACtype | AInoutState | ACtypePtr | ADtype | ADefinition.


(** [getattr(arg, prop)]; a [Return] has no [definition]. *)
Definition getattr (a : arg) (prop : attribute) : result str :=
  match prop with
  | AName => Ok (arg_name_of a)
  | ACtype => Ok (arg_ctype_of a)
  | AInoutState => arg_inout_state a
  | ACtypePtr =>
      match a with
      | AArg x => Argument_ctype_ptr x
      | ARet r => Ok (ret_ctype_ptr r)
      end
  | ADtype =>
      match a with
      | AArg x => Argument_dtype x
      | ARet r => Return_dtype r
      end
  | ADefinition =>
      match a with
      | AArg x => Ok (arg_definition x)
      | ARet r => Raise (no_attribute "Return" "definition")
      end
  end.

(** The elements of the list [result]: arguments themselves or one of
    their attributes. *)
Inductive pyobj : Type :=
| OArg (a : arg)
| OStr (s : str).

Inductive value : Type :=
| VList (l : list pyobj)
| VStr (s : str).

(** The body of the loop of [args_by_inout]. *)
Definition select_arg (inout_filter : str) (prop : option attribute)
    (selected : list pyobj) (a : arg) : result (list pyobj) :=
  st ← arg_inout_state a;
  if bool_decide (st ∈ split "|" inout_filter) then
    match prop with
    | None => Ok (selected ++ [OArg a])
    | Some p => v ← getattr a p; Ok (selected ++ [OStr v])
    end
  else Ok selected.

(** [join.join(result)]: every item has to be a string; the error names
    the position and the class of the first item that is not. *)
Definition join_type_error (i : nat) (cls : str) : exn :=
  TypeError (("sequence item " : str) ++ (pretty i : string)
             ++ (": expected str instance, " : str) ++ cls ++ (" found" : str)).

Fixpoint strings_from (i : nat) (l : list pyobj) : result (list str) :=
  match l with
  | [] => Ok []
  | OStr s :: l' => r ← strings_from (S i) l'; Ok (s :: r)
  | OArg a :: _ => Raise (join_type_error i (class_name a))
  end.

Definition strings_of (l : list pyobj) : result (list str) := strings_from 0 l.

Definition Function_args_by_inout (f : Function) (inout_filter : str)
    (prop : option attribute) (join_with : option str) : result value :=
  selected ← for_each (select_arg inout_filter prop) (fn_args f) [];
  match join_with with
  | Some j => l ← strings_of selected; Ok (VStr (join j l))
  | None => Ok (VList selected)
  end.

(** ** The functions collected by [main]

    [main] loads a template with jinja2, collects a [Function] for every
    declaration of the Astronomy sections of [erfa.h], and renders the
    template with them.  The template engine is outside this development;
    what follows is the part of [main] from the choice of the header file to
    the end of its loops, whose result is the list [funcs].  The progress
    lines it prints are not kept. *)

(** The class of a word character, on the code points below 256: letters,
    digits and other numeric characters, and the underscore. *)
Definition word (c : ascii) : bool :=
  let n := nat_of_ascii c in
  ((48 <=? n) && (n <=? 57)) || ((65 <=? n) && (n <=? 90)) || (n =? 95)
  || ((97 <=? n) && (n <=? 122))
  || (n =? 170) || (n =? 178) || (n =? 179) || (n =? 181)
  || (n =? 185) || (n =? 186) || ((188 <=? n) && (n <=? 190))
  || ((192 <=? n) && (n <=? 214)) || ((216 <=? n) && (n <=? 246))
  || (248 <=? n).

(** The leftmost match in [s]: its groups and the text left after it. *)
Fixpoint search_rest (r : list item) (s : str) : option (list str * str) :=
  match match_items r s [] s with
  | Some m => Some m
  | None =>
      match s with
      | [] => None
      | _ :: s' => search_rest r s'
      end
  end.

(** [re.findall] for a pattern that starts with a literal character: a
    match is never empty, and the scan resumes where it ended.  Every match
    takes at least one character, so [length s] steps are enough. *)
Fixpoint findall_go (fuel : nat) (r : list item) (s : str) : list (list str) :=
  match fuel with
  | O => []
  | S fuel' =>
      match search_rest r s with
      | None => []
      | Some (gs, rest) => gs :: findall_go fuel' r rest
      end
  end.

Definition findall (p : regex) (s : str) : list (list str) :=
  findall_go (length s) (items p) s.

(** The pattern of a section of the header, compiled with [re.DOTALL]: a
    comment opening and a space, group 1 of word characters, a slash, group 2
    of word characters, a space, a comment closing and a newline, group 3 of
    any characters (lazy, possibly empty), and two newlines. *)
Definition header_re : regex :=
  Regex false
    [ Lit "/"; Lit "*"; Lit " "; GOpen; Rep word 0 true; GClose; Lit "/";
      GOpen; Rep word 0 true; GClose; Lit " "; Lit "*"; Lit "/"; Lit nl;
      GOpen; Rep any 0 false; GClose; Lit nl; Lit nl ].

(** The pattern of a declared name: a space, group 1 of one or more word
    characters, an opening parenthesis, any characters (lazy), a closing
    parenthesis and a semicolon. *)
Definition names_re : regex :=
  Regex false
    [ Lit " "; GOpen; Rep word 1 true; GClose; Lit "(";
      Rep any 0 false; Lit ")"; Lit ";" ].

(** [os.path.split(p)[0]] of [posixpath]: the text up to the last slash,
    without its trailing slashes unless it is made of slashes only. *)
Fixpoint from_slash (s : str) : str :=
  match s with
  | [] => []
  | c :: s' => if chr_eqb c "/" then s else from_slash s'
  end.

Fixpoint lstrip_slash (s : str) : str :=
  match s with
  | c :: s' => if chr_eqb c "/" then lstrip_slash s' else s
  | [] => []
  end.

Definition path_dirname (p : str) : str :=
  let head := from_slash (rev p) in
  if forallb (chr_eqb "/") head then rev head else rev (lstrip_slash head).

Definition impossible_error : exn :=
  ValueError "A name for a C file wasn't found in the string that spawned it.  This should be impossible!".

(** [line[:-1].split('(')[0]] *)
Definition match_line_of (line : str) : str :=
  default [] (head (split "(" (removelast line))).

(** The loop over the lines of a section, left at the first line that
    contains the name; its [else] branch raises. *)
Fixpoint find_declaration (fs : FileSystem) (srcdir name : str)
    (funcs : list Function) (lines : list str) : result (list Function) :=
  match lines with
  | [] => Raise impossible_error
  | line :: rest =>
      if occurs name line
      then f ← Function_init fs name srcdir (Some (match_line_of line));
           Ok (funcs ++ [f])
      else find_declaration fs srcdir name funcs rest
  end.

(** The body of the loop over the names of a section. *)
Definition add_function (fs : FileSystem) (srcdir : str) (multifilserc : bool)
    (functions : str) (funcs : list Function) (name : str)
  : result (list Function) :=
  if multifilserc
  then f ← Function_init fs name srcdir None; Ok (funcs ++ [f])
  else find_declaration fs srcdir name funcs (split [nl] functions).

Definition func_names (functions : str) : list str :=
  map (fun gs => default [] (head gs)) (findall names_re functions).

(** The body of the loop over the sections; the pattern has three groups. *)
Definition add_functions (fs : FileSystem) (srcdir : str) (multifilserc : bool)
    (funcs : list Function) (found : list str) : result (list Function) :=
  match found with
  | [section; subsection; functions] =>
      if str_eqb section "Astronomy"
      then for_each (add_function fs srcdir multifilserc functions)
                    (func_names functions) funcs
      else Ok funcs
  | _ => Ok funcs
  end.

(** The path of the header: in the directory, or beside the single file. *)
Definition erfahfn (fs : FileSystem) (srcdir : str) : str :=
  if isdir fs srcdir then path_join srcdir "erfa.h"
  else path_join (path_dirname srcdir) "erfa.h".

Definition main_funcs (fs : FileSystem) (srcdir : str) : result (list Function) :=
  let multifilserc := isdir fs srcdir in
  match read_file fs (erfahfn fs srcdir) with
  | None => Raise (IOError (erfahfn fs srcdir))
  | Some erfa_h =>
      for_each (add_functions fs srcdir multifilserc)
               (findall header_re erfa_h) []
  end.

(** * Notions used in the statements *)

(** ** About the matcher *)

(** Every character of the run is in the class. *)
Definition all_in (cls : ascii -> bool) (run : str) : Prop :=
  Forall (fun c => cls c = true) run.

(** The pattern tried at the start of [s]. *)
Definition here (r : list item) (s : str) : option (list str * str) :=
  match_items r s [] s.

(** The result of the rest of a match, with the groups closed before it
    put in front. *)
Definition with_done (done : list str) (m : list str * str) : list str * str :=
  (rev done ++ m.1, m.2).

(** What follows group 1 in the section pattern. *)
Definition section_rest : list item :=
  [ Lit ":"; Lit nl; GOpen; Rep any 1 false; GClose; Lit " "; Lit " "; Lit nl ].

(** Two matches of the same section: the text after the match and all
    groups but the first agree. *)
Definition same_body (m m' : list str * str) : Prop :=
  tail m.1 = tail m'.1 /\ m.2 = m'.2.

(** ** About documentation entries and directions *)

(** The entry has a name. *)
Definition named (e : ArgumentDoc) : Prop := is_Some (ad_name e).

(** [name] is one of the comma-separated names of the entry. *)
Definition lists (name : str) (e : ArgumentDoc) : bool :=
  match ad_name e with
  | Some n => bool_decide (name ∈ split "," n)
  | None => false
  end.

(** The number of entries of [l] that list [name]. *)
Definition hits (name : str) (l : list ArgumentDoc) : nat :=
  length (filter (fun e => lists name e = true) l).

(** The state after the second loop of [inout_state], when it starts in
    [st] and [k] entries list the name: the first hit turns [in] into
    [inout] and anything else into [out], every later hit gives [out]. *)
Definition after_outputs (st : str) (k : nat) : str :=
  match k with
  | 0 => st
  | 1 => if str_eqb st "in" then "inout" else "out"
  | _ => "out"
  end.

(** ** About parameter fragments *)

(** A fragment can be unpacked into a type and a name when, stripped, it
    has a star or a space. *)
Definition well_formed (fragment : str) : bool :=
  contains "*" (strip fragment) || contains " " (strip fragment).

(** The arguments built from the fragments, one for one and in order. *)
Definition built_from (doc : FunctionDoc) (fragments : list str)
    (arguments : list Argument) : Prop :=
  Forall2 (fun fragment x => Argument_init fragment doc = Ok x) fragments arguments.

(** The text after the last whitespace character, read from the end. *)
Fixpoint take_nonspace (s : str) : str :=
  match s with
  | c :: s' => if isspace c then [] else c :: take_nonspace s'
  | [] => []
  end.

(** What is left when that text is dropped, read from the end. *)
Fixpoint drop_nonspace (s : str) : str :=
  match s with
  | c :: s' => if isspace c then s else drop_nonspace s'
  | [] => []
  end.

(** Following the words of the specification for a fragment without
    pointer marker: it is split on its last whitespace run into base type and
    name, and an array suffix of the name is moved into the type. *)
Definition split_last_whitespace_run (fragment : str) : str * str :=
  let base := rstrip (rev (drop_nonspace (rev fragment))) in
  let name := rev (take_nonspace (rev fragment)) in
  match split1 "[" name with
  | [name'; dims] => (base ++ ("[" : str) ++ dims, name')
  | _ => (base, name)
  end.

(** ** About functions and the selection of arguments *)

(** The object assembled at the end of [Function.__init__]. *)
Definition assemble (fs : FileSystem) (name source_path : str)
    (cfunc : str) (doc : FunctionDoc) (ret : str) (args : list arg) : Function :=
  mkFunction name
    (lower (default [] (last (split "era" name))))
    (lower (default [] (last (split "era" name))) ++ (".c" : str))
    (Function_filepath fs name source_path) cfunc doc
    (if str_eqb ret "double" then args ++ [ARet (Return_init ret doc)] else args)
    ret.

(** The results of [g] on a list, up to the first one that raises. *)
Fixpoint traverse {A B} (g : A -> result B) (l : list A) : result (list B) :=
  match l with
  | [] => Ok []
  | x :: l' => y ← g x; ys ← traverse g l'; Ok (y :: ys)
  end.

(** The direction of an element of [args]. *)
Definition direction (a : arg) : str :=
  match arg_inout_state a with
  | Ok st => st
  | Raise _ => []
  end.

(** The direction is one of those named in the filter. *)
Definition selected (inout_filter : str) (a : arg) : Prop :=
  direction a ∈ split "|" inout_filter.

Global Instance selected_dec (inout_filter : str) (a : arg) :
  Decision (selected inout_filter a).
Proof. unfold selected. apply _. Defined.

(** ** About exceptions of the loops *)

(** The entry has a name, as a test. *)
Definition has_name (e : ArgumentDoc) : bool :=
  match ad_name e with
  | Some _ => true
  | None => false
  end.

(** The direction read off the table: whether an entry of [input] lists the
    name, and how many entries of [output] do. *)
Definition direction_table (listed_in_input : bool) (output_hits : nat) : str :=
  match listed_in_input, output_hits with
  | false, 0 => []
  | true, 0 => "in"
  | true, 1 => "inout"
  | _, _ => "out"
  end.

(** ** About the normalised documentation text *)

(** [r] is [s] with some of its stars and slashes turned into spaces. *)
Definition blanked (s r : str) : Prop :=
  Forall2 (fun c c' => c' = c \/
                       (c' = " "%char /\ (c = "*"%char \/ c = "/"%char))) s r.

(** ** About the functions collected from the header *)

(** The exceptions of [Function.__init__]. *)
Definition construction_error (e : exn) : Prop :=
  (exists path, e = IOError path) \/
  (exists match_line path, e = match_line_error match_line path) \/
  e = none_group_error \/ e = unpack_error.

(** The names declared in the Astronomy sections of a header, in order. *)
Definition section_names (found : list str) : list str :=
  match found with
  | [section; subsection; functions] =>
      if str_eqb section "Astronomy" then func_names functions else []
  | _ => []
  end.

Definition declared_names (erfa_h : str) : list str :=
  concat (map section_names (findall header_re erfa_h)).

(** ** About the located declaration *)


(** ** About the entries of a section *)

(** The entries documented by the body of a section: one for each of its
    lines that reads as an entry, in the order of the lines. *)
Definition entries_of (body : str) : list ArgumentDoc :=
  filter (fun e => has_name e = true) (map ArgumentDoc_init (split [nl] body)).

(** The entries of the section found for a header, if any. *)
Definition section_entries (header doc : str) : list ArgumentDoc :=
  match re_search (section_re header) doc with
  | Some m => entries_of (group m 2)
  | None => []
  end.

(** * Sample inputs *)

(** A text given by its lines. *)
Definition text (lines : list string) : str :=
  concat (map (fun l : string => (l : str) ++ [nl]) lines).

(** The source of eraSepp, with a section Given for its two vectors. *)
Definition sepp_c : str :=
  text [ "";
         "double eraSepp(double a[3], double b[3])";
         "/*";
         "Given:";
         "    a        double[3]    first vector";
         "    b        double[3]    second vector";
         "  ";
         "*/";
         "{";
         "}" ]%string.

(** A file system holding one source file, whatever the path. *)
Definition one_file (contents : str) : FileSystem :=
  mkFileSystem (fun _ => false) (fun p => p) (fun _ => Some contents).

(** A documentation block with one section, Given and returned. *)
Definition inout_comment : str :=
  text [ "/*";
         "**  Given and returned:";
         "**     x        double       value, updated in place";
         "**";
         "*/" ]%string.

Definition inout_doc : FunctionDoc := FunctionDoc_init inout_comment.

(** The match of its section. *)
Definition inout_match : MatchObject :=
  Eval vm_compute in
    default (Match 0 [])
      (re_search (section_re "Given and returned") (fd_doc inout_doc)).

(** A block that documents [x] under Returned and again under Given and
    returned. *)
Definition twice_returned_comment : str :=
  text [ "/*";
         "**  Returned:";
         "**     x        double       value on exit";
         "**";
         "**  Given and returned:";
         "**     x        double       value, updated in place";
         "**";
         "*/" ]%string.

Definition twice_returned_doc : FunctionDoc :=
  FunctionDoc_init twice_returned_comment.


(** The source of a function that returns nothing. *)
Definition swap_c : str :=
  text [ "";
         "void eraSwap(double *a, double *b)";
         "/*";
         "**  Given and returned:";
         "**     a,b      double       values to exchange";
         "**";
         "*/";
         "{";
         "}" ]%string.


Definition sepp_function : Function :=
  Eval vm_compute in
    match Function_init (one_file sepp_c) "eraSepp" "erfa.c" None with
    | Ok f => f
    | Raise _ => mkFunction [] [] [] [] [] (mkFunctionDoc []) [] []
    end.

Definition swap_function : Function :=
  Eval vm_compute in
    match Function_init (one_file swap_c) "eraSwap" "erfa.c" None with
    | Ok f => f
    | Raise _ => mkFunction [] [] [] [] [] (mkFunctionDoc []) [] []
    end.

(** A header with one Astronomy section of two functions, and the single
    source file that defines them. *)
Definition epoch_h : str :=
  text [ "#ifndef ERFAHDEF";
         "#define ERFAHDEF";
         "";
         "/* Astronomy/Calendars */";
         "double eraEpb(double dj1, double dj2);";
         "double eraEpj(double dj1, double dj2);";
         "";
         "/* VectorMatrix/Initialization */";
         "void eraIr(double r[3][3]);";
         "";
         "#endif" ]%string.

Definition epoch_c : str :=
  text [ "#include <erfa.h>";
         "";
         "double eraEpb(double dj1, double dj2)";
         "/*";
         "**  Given:";
         "**     dj1,dj2    double     Julian Date";
         "**";
         "**  Returned (function value):";
         "**                double     Besselian Epoch";
         "**";
         "*/";
         "{";
         "}";
         "";
         "double eraEpj(double dj1, double dj2)";
         "/*";
         "**  Given:";
         "**     dj1,dj2    double     Julian Date";
         "**";
         "**  Returned (function value):";
         "**                double     Julian Epoch";
         "**";
         "*/";
         "{";
         "}" ]%string.

(** A file system holding a header and a single source file. *)
Definition two_files (header source : str) : FileSystem :=
  mkFileSystem (fun _ => false) (fun p => p)
    (fun p => if str_eqb p "erfa.h" then Some header
              else if str_eqb p "erfa.c" then Some source
              else None).

Definition epoch_funcs : list Function :=
  Eval vm_compute in
    match main_funcs (two_files epoch_h epoch_c) "erfa.c" with
    | Ok funcs => funcs
    | Raise _ => []
    end.



(** The source of a function declared behind an export macro. *)
Definition export_c : str :=
  text [ "";
         "ERFA_EXPORT(double) eraFoo(double a, double b)";
         "/*";
         "**  Given:";
         "**     a,b      double       two values";
         "**";
         "*/";
         "{";
         "}" ]%string.

(** * Properties *)

(** ** The loops *)

Lemma for_each_app {A S} (body : S -> A -> result S) (l1 l2 : list A) (st : S) :
  for_each body (l1 ++ l2) st = (st' ← for_each body l1 st; for_each body l2 st').
Proof.
  revert st. induction l1 as [|x l1 IH]; intros st; simpl; [reflexivity|].
  destruct (body st x) as [st'|e]; simpl; [apply IH | reflexivity].
Qed.

(** ** Entries of a section always carry a name *)

Lemma append_entries_app (acc : list ArgumentDoc) (lines : list str) :
  append_entries acc lines = acc ++ append_entries [] lines.
Proof.
  revert acc. induction lines as [|i rest IH]; intros acc; simpl.
  - by rewrite app_nil_r.
  - destruct (ad_name (ArgumentDoc_init i)).
    + rewrite (IH (acc ++ _)), (IH [_]). by rewrite <- app_assoc.
    + apply IH.
Qed.

Lemma append_entries_named (acc : list ArgumentDoc) (lines : list str) :
  Forall named acc -> Forall named (append_entries acc lines).
Proof.
  revert acc. induction lines as [|i rest IH]; intros acc Hacc; simpl; [done|].
  destruct (ad_name (ArgumentDoc_init i)) eqn:E; [|by apply IH].
  apply IH, Forall_app; split; [done|].
  apply Forall_singleton. unfold named. by rewrite E.
Qed.

Lemma add_section_named (header doc : str) (acc : list ArgumentDoc) :
  Forall named acc -> Forall named (add_section header doc acc).
Proof.
  intros H. unfold add_section.
  destruct (re_search _ _); [by apply append_entries_named | done].
Qed.

Lemma add_section_app (header doc : str) (acc : list ArgumentDoc) :
  add_section header doc acc = acc ++ add_section header doc [].
Proof.
  unfold add_section. destruct (re_search _ _).
  - apply append_entries_app.
  - by rewrite app_nil_r.
Qed.

Lemma input_named (d : FunctionDoc) : Forall named (FunctionDoc_input d).
Proof. unfold FunctionDoc_input. by do 2 apply add_section_named. Qed.

Lemma output_named (d : FunctionDoc) : Forall named (FunctionDoc_output d).
Proof. unfold FunctionDoc_output. by do 2 apply add_section_named. Qed.

(** ** The direction of an argument *)

Lemma bind_Ok {A B} (a : A) (k : A -> result B) : (x ← Ok a; k x) = k a.
Proof. reflexivity. Qed.

Lemma for_each_cons {A S} (body : S -> A -> result S) (x : A) (l : list A) (st : S) :
  for_each body (x :: l) st = (st' ← body st x; for_each body l st').
Proof. reflexivity. Qed.

Lemma inout_in_named (name st : str) (e : ArgumentDoc) :
  named e -> inout_in name st e = Ok (if lists name e then "in" : str else st).
Proof. intros [n Hn]. unfold inout_in, lists. by rewrite Hn. Qed.

Lemma inout_out_named (name st : str) (e : ArgumentDoc) :
  named e ->
  inout_out name st e
  = Ok (if lists name e
        then if str_eqb st "in" then "inout" : str else "out"
        else st).
Proof. intros [n Hn]. unfold inout_out, lists. by rewrite Hn. Qed.

Lemma inputs_loop (name : str) (l : list ArgumentDoc) (st : str) :
  Forall named l ->
  for_each (inout_in name) l st
  = Ok (if existsb (lists name) l then ("in" : str) else st).
Proof.
  intros H. revert st. induction H as [|e l He _ IH]; intros st; [done|].
  rewrite for_each_cons, inout_in_named, bind_Ok, IH by done. cbn [existsb].
  destruct (lists name e); cbn [orb]; [|done].
  by destruct (existsb _ _).
Qed.

Lemma outputs_loop (name : str) (l : list ArgumentDoc) (st : str) :
  Forall named l ->
  for_each (inout_out name) l st = Ok (after_outputs st (hits name l)).
Proof.
  intros H. revert st. induction H as [|e l He _ IH]; intros st; [done|].
  rewrite for_each_cons, inout_out_named, bind_Ok, IH by done.
  unfold hits. rewrite filter_cons.
  destruct (lists name e) eqn:E.
  - rewrite decide_True by done. cbn [length]. fold (hits name l).
    destruct (str_eqb st "in") eqn:Est;
      destruct (hits name l) as [|[|k]]; cbn [after_outputs];
      rewrite ?Est; reflexivity.
  - by rewrite decide_False by done.
Qed.

Lemma inout_of_spec (inputs outputs : list ArgumentDoc) (name : str) :
  Forall named inputs -> Forall named outputs ->
  inout_of inputs outputs name
  = Ok (after_outputs (if existsb (lists name) inputs then "in" else [])
                      (hits name outputs)).
Proof.
  intros Hi Ho. unfold inout_of. rewrite inputs_loop by done.
  rewrite bind_Ok. by apply outputs_loop.
Qed.

(** The derivation of the direction never raises. *)
Lemma inout_state_total (a : Argument) :
  exists st, Argument_inout_state a = Ok st.
Proof.
  unfold Argument_inout_state.
  rewrite inout_of_spec; eauto using input_named, output_named.
Qed.

Lemma hits_none (name : str) (l : list ArgumentDoc) :
  existsb (lists name) l = false -> hits name l = 0.
Proof.
  unfold hits. induction l as [|e l IH]; [done|]. cbn [existsb].
  intros [He Hl]%orb_false_iff. rewrite filter_cons, decide_False; [auto|].
  by rewrite He.
Qed.

Lemma hits_some (name : str) (l : list ArgumentDoc) :
  existsb (lists name) l = true -> 0 < hits name l.
Proof.
  unfold hits. induction l as [|e l IH]; [done|]. cbn [existsb].
  rewrite filter_cons. destruct (lists name e) eqn:He.
  - rewrite decide_True by done. cbn [length]. lia.
  - rewrite decide_False by done. auto.
Qed.

(** C2: an argument that no entry of [input] and no entry of [output]
    lists (entry names split on commas) has the empty direction, and the
    derivation returns normally. *)
Theorem undocumented_argument_unknown (a : Argument) :
  existsb (lists (arg_name a)) (FunctionDoc_input (arg_doc a)) = false ->
  existsb (lists (arg_name a)) (FunctionDoc_output (arg_doc a)) = false ->
  Argument_inout_state a = Ok [].
Proof.
  intros Hin Hout. unfold Argument_inout_state.
  rewrite inout_of_spec by auto using input_named, output_named.
  by rewrite Hin, (hits_none _ _ Hout).
Qed.

(** ** The table of descriptors *)

Lemma ctype_table_NoDup : NoDup (ctype_table.*1).
Proof. apply (bool_decide_unpack _). vm_compute. reflexivity. Qed.

(** C8: the lookup of a spelling among the eleven keys of the table returns
    its descriptor, and the lookup of any other spelling raises [KeyError]. *)
Theorem dtype_closed_key_set (a : Argument) :
  (arg_ctype a ∈ ctype_table.*1 ->
   exists d, (arg_ctype a, d) ∈ ctype_table /\ Argument_dtype a = Ok d) /\
  (arg_ctype a ∉ ctype_table.*1 ->
   Argument_dtype a = Raise (KeyError (arg_ctype a))).
Proof.
  unfold Argument_dtype, dict_getitem, ctype_to_dtype. split.
  - intros Hin.
    destruct (list_to_map ctype_table !! arg_ctype a) as [d|] eqn:E.
    + exists d. split; [|done].
      by apply (elem_of_list_to_map_2 (M := gmap str)).
    + by apply not_elem_of_list_to_map in E.
  - intros Hout. by rewrite (not_elem_of_list_to_map_1 (M := gmap str)).
Qed.

(** ** The matcher *)

Section RepetitionFacts.
Context {A : Type}.
Variable cls : ascii -> bool.
Variable lo : nat.

(** A successful repetition consumed a run of the class, at least [lo]
    long counting what was consumed before, and the rest of the pattern
    matched after it. *)
Lemma rep_greedy_sound (k : str -> option A) (n : nat) (s : str) (r : A) :
  rep_greedy cls lo k n s = Some r ->
  exists run rest,
    s = run ++ rest /\ all_in cls run /\ lo <= n + length run /\ k rest = Some r.
Proof.
  revert n. induction s as [|c s IH]; intros n; cbn [rep_greedy].
  - destruct (Nat.leb_spec lo n); [|done]. intros Hk.
    exists [], []. repeat split; [constructor | simpl; lia | done].
  - assert (Hstop : (if lo <=? n then k (c :: s) else None) = Some r ->
      exists run rest, c :: s = run ++ rest /\ all_in cls run
                       /\ lo <= n + length run /\ k rest = Some r).
    { destruct (Nat.leb_spec lo n); [|done]. intros Hk.
      exists [], (c :: s). repeat split; [constructor | simpl; lia | done]. }
    destruct (cls c) eqn:Hc; [|done].
    destruct (rep_greedy cls lo k (S n) s) as [r'|] eqn:E; [|done].
    intros [= ->]. destruct (IH _ E) as (run & rest & -> & Hrun & Hlo & Hk).
    exists (c :: run), rest. repeat split; [by constructor | simpl; lia | done].
Qed.

Lemma rep_lazy_sound (k : str -> option A) (n : nat) (s : str) (r : A) :
  rep_lazy cls lo k n s = Some r ->
  exists run rest,
    s = run ++ rest /\ all_in cls run /\ lo <= n + length run /\ k rest = Some r.
Proof.
  revert n. induction s as [|c s IH]; intros n; cbn [rep_lazy].
  - destruct (Nat.leb_spec lo n); [|done].
    destruct (k []) eqn:Hk; [|done]. intros [= ->].
    exists [], []. repeat split; [constructor | simpl; lia | done].
  - destruct (if lo <=? n then k (c :: s) else None) as [r'|] eqn:E.
    + intros [= ->]. destruct (Nat.leb_spec lo n); [|done].
      exists [], (c :: s). repeat split; [constructor | simpl; lia | done].
    + destruct (cls c) eqn:Hc; [|done]. intros E'.
      destruct (IH _ E') as (run & rest & -> & Hrun & Hlo & Hk).
      exists (c :: run), rest.
      repeat split; [by constructor | simpl; lia | done].
Qed.

(** If the rest of the pattern matches after some run of the class that is
    long enough, the repetition succeeds (maybe with another run). *)
Lemma rep_greedy_complete (k : str -> option A) (n : nat) (run rest : str) :
  all_in cls run -> lo <= n + length run -> is_Some (k rest) ->
  is_Some (rep_greedy cls lo k n (run ++ rest)).
Proof.
  intros Hrun. revert n. induction Hrun as [|c run Hc _ IH]; intros n Hlo Hk.
  - simpl in Hlo. rewrite app_nil_l.
    destruct rest as [|c rest]; cbn [rep_greedy].
    + by rewrite (proj2 (Nat.leb_le _ _)) by lia.
    + destruct (cls c); [destruct (rep_greedy cls lo k (S n) rest); [done|]|];
        by rewrite (proj2 (Nat.leb_le _ _)) by lia.
  - cbn [app rep_greedy]. rewrite Hc.
    destruct (IH (S n)) as [r Hr]; [simpl in Hlo; lia | done |].
    by rewrite Hr.
Qed.

Lemma rep_lazy_complete (k : str -> option A) (n : nat) (run rest : str) :
  all_in cls run -> lo <= n + length run -> is_Some (k rest) ->
  is_Some (rep_lazy cls lo k n (run ++ rest)).
Proof.
  intros Hrun. revert n. induction Hrun as [|c run Hc _ IH]; intros n Hlo Hk.
  - simpl in Hlo. rewrite app_nil_l.
    destruct rest as [|c rest]; cbn [rep_lazy];
      rewrite (proj2 (Nat.leb_le _ _)) by lia;
      destruct Hk as [r ->]; done.
  - cbn [app rep_lazy].
    destruct (if lo <=? n then k (c :: run ++ rest) else None); [done|].
    rewrite Hc. apply IH; [simpl in Hlo; lia | done].
Qed.

(** Continuations that agree up to a relation give results that agree up
    to it. *)
Lemma rep_greedy_rel {B} (P : A -> B -> Prop)
    (k : str -> option A) (k' : str -> option B) (n : nat) (s : str) :
  (forall t, option_Forall2 P (k t) (k' t)) ->
  option_Forall2 P (rep_greedy cls lo k n s) (rep_greedy cls lo k' n s).
Proof.
  intros Hk. revert n. induction s as [|c s IH]; intros n; cbn [rep_greedy].
  - destruct (lo <=? n); [apply Hk | constructor].
  - assert (option_Forall2 P (if lo <=? n then k (c :: s) else None)
                             (if lo <=? n then k' (c :: s) else None)).
    { destruct (lo <=? n); [apply Hk | constructor]. }
    destruct (cls c); [|done].
    destruct (IH (S n)); [by constructor | done].
Qed.

Lemma rep_lazy_rel {B} (P : A -> B -> Prop)
    (k : str -> option A) (k' : str -> option B) (n : nat) (s : str) :
  (forall t, option_Forall2 P (k t) (k' t)) ->
  option_Forall2 P (rep_lazy cls lo k n s) (rep_lazy cls lo k' n s).
Proof.
  intros Hk. revert n. induction s as [|c s IH]; intros n; cbn [rep_lazy].
  - destruct (lo <=? n); [|constructor].
    destruct (Hk []); by constructor.
  - assert (H : option_Forall2 P (if lo <=? n then k (c :: s) else None)
                                 (if lo <=? n then k' (c :: s) else None)).
    { destruct (lo <=? n); [apply Hk | constructor]. }
    destruct H; [by constructor|].
    destruct (cls c); [apply IH | constructor].
Qed.

(** A greedy repetition that succeeds after a run of the class succeeds
    the same way when it starts before the run. *)
Lemma rep_greedy_app (k : str -> option A) (n : nat) (run s : str) (r : A) :
  all_in cls run ->
  rep_greedy cls lo k (n + length run) s = Some r ->
  rep_greedy cls lo k n (run ++ s) = Some r.
Proof.
  intros Hrun. revert n. induction Hrun as [|c run Hc _ IH]; intros n.
  - simpl. by rewrite Nat.add_0_r.
  - cbn [app rep_greedy length]. rewrite Hc. intros E.
    rewrite IH; [done|]. by replace (S n + length run) with (n + S (length run)) by lia.
Qed.

(** Once the lower bound is reached the count no longer matters. *)
Lemma rep_greedy_count (k : str -> option A) (n m : nat) (s : str) :
  lo <= n -> lo <= m ->
  rep_greedy cls lo k n s = rep_greedy cls lo k m s.
Proof.
  revert n m. induction s as [|c s IH]; intros n m Hn Hm; cbn [rep_greedy];
    rewrite !(proj2 (Nat.leb_le _ _)) by lia; [done|].
  by rewrite (IH (S n) (S m)) by lia.
Qed.
End RepetitionFacts.

Lemma chr_eqb_sym (a b : ascii) : chr_eqb a b = chr_eqb b a.
Proof. apply Ascii.eqb_sym. Qed.

Lemma chr_eqb_eq (a b : ascii) : chr_eqb a b = true <-> a = b.
Proof. apply Ascii.eqb_eq. Qed.

Lemma chr_eqb_refl (a : ascii) : chr_eqb a a = true.
Proof. apply Ascii.eqb_refl. Qed.

Lemma startswith_app (p s : str) : startswith p (p ++ s) = true.
Proof. induction p as [|a p IH]; [done|]. simpl. by rewrite chr_eqb_refl. Qed.

Lemma startswith_spec (p s : str) :
  startswith p s = true <-> exists t, s = p ++ t.
Proof.
  split.
  - revert s. induction p as [|a p IH]; intros s; [by exists s|].
    destruct s as [|b s]; [done|]. simpl.
    intros [->%chr_eqb_eq [t ->]%IH]%andb_true_iff. by exists t.
  - intros [t ->]. apply startswith_app.
Qed.

(** Literal text in a pattern is a prefix test. *)
Lemma match_lits (h : str) (r : list item) (cur : str) (done : list str) (s : str) :
  match_items (lits h ++ r) cur done s
  = if startswith h s then match_items r cur done (drop (length h) s) else None.
Proof.
  revert s. induction h as [|a h IH]; intros s; [done|].
  destruct s as [|x s]; [done|]. cbn [lits map app match_items startswith].
  rewrite (chr_eqb_sym a x). destruct (chr_eqb x a); [apply IH | done].
Qed.

Lemma option_Forall2_fmap {A B} (f : B -> A) (x : option A) (y : option B) :
  option_Forall2 (fun a b => a = f b) x y <-> x = f <$> y.
Proof.
  split.
  - by intros [a b ->|].
  - intros ->. destruct y; by constructor.
Qed.

Lemma match_items_done (r : list item) (cur : str) (done : list str) (s : str) :
  match_items r cur done s = with_done done <$> match_items r cur [] s.
Proof.
  revert cur done s. induction r as [|it r IH]; intros cur done s.
  - simpl. unfold with_done. simpl. by rewrite app_nil_r.
  - assert (Hk : forall t, option_Forall2 (fun a b => a = with_done done b)
                             (match_items r cur done t) (match_items r cur [] t)).
    { intros t. by apply option_Forall2_fmap. }
    destruct it as [c|cls lo [|]|c| |]; cbn [match_items].
    + destruct s as [|x s]; [done|]. destruct (chr_eqb x c); [apply IH | done].
    + by apply option_Forall2_fmap, rep_greedy_rel.
    + by apply option_Forall2_fmap, rep_lazy_rel.
    + rewrite (IH cur done s).
      destruct s as [|x s]; [by destruct (match_items r cur [] [])|].
      destruct (chr_eqb x c); [|by destruct (match_items r cur [] (x :: s))].
      rewrite (IH cur done s). by destruct (match_items r cur [] s).
    + apply IH.
    + rewrite (IH cur (_ :: done)), (IH cur [_]).
      destruct (match_items r cur [] s) as [[gs rest]|]; [|done].
      unfold with_done. simpl. by rewrite <- app_assoc.
  Qed.

(** ** Leftmost search *)

Lemma match_at_here (r : list item) (i : nat) (s : str) :
  match_at r i s = (fun m => Match i m.1) <$> here r s.
Proof. unfold match_at, here. by destruct (match_items r s [] s) as [[]|]. Qed.

Lemma search_from_elim (r : list item) (i : nat) (s : str) (m : MatchObject) :
  search_from r i s = Some m ->
  exists p gs rest,
    p <= length s /\ m = Match (i + p) gs /\
    here r (drop p s) = Some (gs, rest) /\
    forall q, q < p -> here r (drop q s) = None.
Proof.
  revert i. induction s as [|c s IH]; intros i; cbn [search_from];
    rewrite match_at_here.
  - destruct (here r []) as [[gs rest]|] eqn:E; [|done]. intros [= <-].
    exists 0, gs, rest. rewrite Nat.add_0_r. repeat split; [done|done|lia].
  - destruct (here r (c :: s)) as [[gs rest]|] eqn:E.
    + intros [= <-]. exists 0, gs, rest. rewrite Nat.add_0_r.
      repeat split; [simpl; lia | done | lia].
    + intros (p & gs & rest & Hp & -> & Hm & Hq)%IH.
      exists (S p), gs, rest. repeat split.
      * simpl. lia.
      * f_equal. lia.
      * done.
      * intros [|q] Hlt; [done|]. apply Hq. lia.
Qed.

Lemma search_from_intro (r : list item) (i : nat) (s : str)
    (p : nat) (gs : list str) (rest : str) :
  p <= length s ->
  here r (drop p s) = Some (gs, rest) ->
  (forall q, q < p -> here r (drop q s) = None) ->
  search_from r i s = Some (Match (i + p) gs).
Proof.
  revert i s. induction p as [|p IH]; intros i s Hp Hm Hq.
  - rewrite drop_0 in Hm. rewrite Nat.add_0_r.
    destruct s; cbn [search_from]; rewrite match_at_here, Hm; done.
  - destruct s as [|c s]; [simpl in Hp; lia|].
    cbn [search_from]. rewrite match_at_here.
    pose proof (Hq 0 ltac:(lia)) as H0. rewrite drop_0 in H0. rewrite H0.
    cbn [fmap option_fmap option_map].
    replace (i + S p) with (S i + p) by lia.
    apply IH; [simpl in Hp; lia | done |].
    intros q Hlt. apply (Hq (S q)). lia.
Qed.

Lemma search_from_None (r : list item) (i : nat) (s : str) :
  search_from r i s = None ->
  forall p, p <= length s -> here r (drop p s) = None.
Proof.
  revert i. induction s as [|c s IH]; intros i; cbn [search_from];
    rewrite match_at_here.
  - destruct (here r []) eqn:E; [done|]. intros _ p Hp.
    by rewrite drop_nil.
  - destruct (here r (c :: s)) eqn:E; [done|]. cbn [fmap option_fmap option_map].
    intros Hs [|p] Hp; [done|]. simpl in Hp. apply (IH _ Hs). lia.
Qed.

(** When the pattern matches somewhere, the search finds the leftmost
    place where it does. *)
Lemma search_from_leftmost (r : list item) (i : nat) (s : str) (p : nat) :
  p <= length s -> is_Some (here r (drop p s)) ->
  exists p' gs rest,
    p' <= p /\ search_from r i s = Some (Match (i + p') gs) /\
    here r (drop p' s) = Some (gs, rest) /\
    forall q, q < p' -> here r (drop q s) = None.
Proof.
  intros Hp [m Hm].
  destruct (search_from r i s) as [mo|] eqn:E.
  - destruct (search_from_elim _ _ _ _ E) as (p' & gs & rest & Hp' & -> & Hh & Hq).
    exists p', gs, rest. split_and!; [|done|done|done].
    destruct (decide (p' <= p)) as [|Hgt]; [done|].
    rewrite Hq in Hm by lia. done.
  - by rewrite (search_from_None _ _ _ E p Hp) in Hm.
Qed.

(** ** Sections of a documentation block *)

Lemma section_rest_cur (cur cur' : str) (done : list str) (s : str) :
  match_items section_rest cur done s = match_items section_rest cur' done s.
Proof.
  unfold section_rest. cbn [match_items].
  destruct s as [|a [|b s]]; [done|by destruct (chr_eqb a ":")|].
  by destruct (chr_eqb a ":"), (chr_eqb b nl).
Qed.

Lemma match_GOpen (r : list item) (cur : str) (done : list str) (s : str) :
  match_items (GOpen :: r) cur done s = match_items r s done s.
Proof. reflexivity. Qed.

Lemma match_GClose (r : list item) (cur : str) (done : list str) (s : str) :
  match_items (GClose :: r) cur done s
  = match_items r cur (take (length cur - length s) cur :: done) s.
Proof. reflexivity. Qed.

Lemma match_greedy (cls : ascii -> bool) (lo : nat) (r : list item)
    (cur : str) (done : list str) (s : str) :
  match_items (Rep cls lo true :: r) cur done s
  = rep_greedy cls lo (match_items r cur done) 0 s.
Proof. reflexivity. Qed.

Lemma match_lazy (cls : ascii -> bool) (lo : nat) (r : list item)
    (cur : str) (done : list str) (s : str) :
  match_items (Rep cls lo false :: r) cur done s
  = rep_lazy cls lo (match_items r cur done) 0 s.
Proof. reflexivity. Qed.

Lemma match_Lit (c : ascii) (r : list item) (cur : str) (done : list str) (s : str) :
  match_items (Lit c :: r) cur done s
  = match s with
    | x :: s' => if chr_eqb x c then match_items r cur done s' else None
    | [] => None
    end.
Proof. reflexivity. Qed.

Lemma section_tail_cur (cur cur' : str) (s : str) :
  option_Forall2 same_body
    (match_items (GClose :: section_rest) cur [] s)
    (match_items (GClose :: section_rest) cur' [] s).
Proof.
  rewrite !match_GClose.
  rewrite (match_items_done _ cur), (match_items_done _ cur').
  rewrite (section_rest_cur cur cur').
  destruct (match_items section_rest cur' [] s) as [[gs rest]|]; by constructor.
Qed.

Lemma section_tail_eq :
  section_tail = GOpen :: Rep (not_chr nl) 0 true :: GClose :: section_rest.
Proof. reflexivity. Qed.

(** A header that extends another one within its line: where the longer
    header has its section, the shorter one has a section with the same
    body. *)
Lemma section_header_prefix (h x : str) (s : str) (m : list str * str) :
  all_in (not_chr nl) x ->
  here (lits (h ++ x) ++ section_tail) s = Some m ->
  exists m', here (lits h ++ section_tail) s = Some m' /\ same_body m m'.
Proof.
  intros Hx. unfold here. rewrite !match_lits.
  destruct (startswith (h ++ x) s) eqn:Hs; [|done].
  apply startswith_spec in Hs as [t ->]. rewrite <- app_assoc.
  rewrite startswith_app, !drop_app_length.
  rewrite (app_assoc h x t), drop_app_length.
  rewrite section_tail_eq, !match_GOpen, !match_greedy. intros Hm.
  pose proof (rep_greedy_rel (not_chr nl) 0 same_body _ _ 0 t
                (section_tail_cur t (x ++ t))) as Hrel.
  rewrite Hm in Hrel. inversion Hrel as [? m' Hsame Heq1 Heq2|]; subst.
  exists m'. split; [|done].
  apply rep_greedy_app; [done|].
  rewrite (rep_greedy_count _ _ _ _ 0); [done | lia | lia].
Qed.

Lemma same_body_group (gs gs' : list str) (rest rest' : str) (i j : nat) :
  same_body (gs, rest) (gs', rest') -> group (Match i gs) 2 = group (Match j gs') 2.
Proof.
  intros [Ht _]. unfold group. cbn [groups]. simpl in Ht.
  by destruct gs, gs'; simpl in *; subst.
Qed.

Lemma re_search_section (header doc : str) :
  re_search (section_re header) doc
  = search_from (lits header ++ section_tail) 0 doc.
Proof. reflexivity. Qed.

(** The search for the header Given finds the header Given and returned
    when no section starts before it. *)
Lemma given_finds_given_and_returned (doc : str) (m : MatchObject) :
  re_search (section_re "Given and returned") doc = Some m ->
  (forall m', re_search (section_re "Given") doc = Some m' ->
              mstart m <= mstart m') ->
  exists m', re_search (section_re "Given") doc = Some m'
             /\ group m' 2 = group m 2.
Proof.
  rewrite !re_search_section. intros Hm Hfirst.
  apply search_from_elim in Hm as (p & gs & rest & Hp & -> & Hh & _).
  change ("Given and returned" : str)
    with (("Given" : str) ++ (" and returned" : str)) in Hh.
  apply section_header_prefix in Hh as ([gs' rest'] & Hh' & Hsame);
    [|by repeat constructor].
  destruct (search_from_leftmost (lits ("Given" : str) ++ section_tail) 0 doc p Hp)
    as (p' & gs'' & rest'' & Hle & Hs & Hh'' & _); [by rewrite Hh'|].
  specialize (Hfirst _ Hs). cbn [mstart] in Hfirst.
  assert (p' = p) as -> by lia.
  rewrite Hh' in Hh''. injection Hh'' as <- <-.
  eexists. split; [done|]. symmetry. by eapply same_body_group.
Qed.

Lemma existsb_lists_twice (name : str) (l : list ArgumentDoc) :
  existsb (lists name) (l ++ l) = existsb (lists name) l.
Proof. rewrite existsb_app. by destruct (existsb _ l). Qed.

Lemma append_entries_filter (lines : list str) :
  append_entries [] lines
  = filter (fun e => has_name e = true) (map ArgumentDoc_init lines).
Proof.
  induction lines as [|line lines IH]; [done|].
  cbn [append_entries map]. rewrite filter_cons.
  destruct (ad_name (ArgumentDoc_init line)) as [n|] eqn:E.
  - rewrite decide_True by (unfold has_name; by rewrite E).
    rewrite append_entries_app, IH. done.
  - rewrite decide_False by (unfold has_name; by rewrite E). done.
Qed.

Lemma add_section_entries (header doc : str) :
  add_section header doc [] = section_entries header doc.
Proof.
  unfold add_section, section_entries.
  destruct (re_search (section_re header) doc); [|done].
  apply append_entries_filter.
Qed.

(** C10: when the first section that the header Given finds is the section
    Given and returned, the entries documented by the lines of that section
    come twice in [input] and once in [output], after the entries of a
    section Returned; the direction of every name is the one computed with
    the entries counted once in [input]. *)
Theorem given_and_returned_read_twice (d : FunctionDoc) (m : MatchObject) :
  re_search (section_re "Given and returned") (fd_doc d) = Some m ->
  (forall m', re_search (section_re "Given") (fd_doc d) = Some m' ->
              mstart m <= mstart m') ->
  let entries := entries_of (group m 2) in
  FunctionDoc_input d = entries ++ entries /\
  FunctionDoc_output d = section_entries "Returned" (fd_doc d) ++ entries /\
  forall name,
    inout_of (FunctionDoc_input d) (FunctionDoc_output d) name
    = inout_of entries (FunctionDoc_output d) name.
Proof.
  intros Hm Hfirst entries.
  destruct (given_finds_given_and_returned _ _ Hm Hfirst) as (m' & Hm' & Hg).
  assert (Hentries : append_entries [] (split [nl] (group m 2)) = entries)
    by apply append_entries_filter.
  assert (Hin : FunctionDoc_input d = entries ++ entries).
  { unfold FunctionDoc_input, add_section. rewrite Hm, Hm', Hg.
    rewrite append_entries_app. by rewrite Hentries. }
  split_and!; [done| |].
  - unfold FunctionDoc_output. rewrite add_section_app, add_section_entries.
    f_equal. unfold add_section. by rewrite Hm.
  - intros name. rewrite Hin.
    assert (Forall named entries)
      by (rewrite <- Hentries; by apply append_entries_named).
    rewrite !inout_of_spec by auto using output_named, Forall_app_2.
    by rewrite existsb_lists_twice.
Qed.

(** ** Names given and returned *)

(** The section Given and returned lists a name that [input] and [output]
    list as well: the membership half of C1. *)
Lemma given_and_returned_in_both (d : FunctionDoc) (m : MatchObject) (x : str) :
  re_search (section_re "Given and returned") (fd_doc d) = Some m ->
  existsb (lists x) (append_entries [] (split [nl] (group m 2))) = true ->
  existsb (lists x) (FunctionDoc_input d) = true /\
  existsb (lists x) (FunctionDoc_output d) = true.
Proof.
  intros Hm Hx.
  assert (Hsec : add_section "Given and returned" (fd_doc d) []
                 = append_entries [] (split [nl] (group m 2))).
  { unfold add_section. by rewrite Hm. }
  unfold FunctionDoc_input, FunctionDoc_output.
  rewrite (add_section_app _ _ (add_section "Given" _ _)).
  rewrite (add_section_app _ _ (add_section "Returned" _ _)).
  rewrite !existsb_app, Hsec, Hx. by rewrite !orb_true_r.
Qed.

(** The direction of an argument in terms of the entries that list it. *)
Lemma inout_state_spec (a : Argument) :
  Argument_inout_state a
  = Ok (after_outputs
          (if existsb (lists (arg_name a)) (FunctionDoc_input (arg_doc a))
           then "in" else [])
          (hits (arg_name a) (FunctionDoc_output (arg_doc a)))).
Proof. apply inout_of_spec; auto using input_named, output_named. Qed.

(** A name listed by an entry of [input] and by exactly one entry of
    [output] has the direction [inout]. *)
Lemma inout_state_inout (a : Argument) :
  existsb (lists (arg_name a)) (FunctionDoc_input (arg_doc a)) = true ->
  hits (arg_name a) (FunctionDoc_output (arg_doc a)) = 1 ->
  Argument_inout_state a = Ok ("inout" : str).
Proof. intros Hin Hout. by rewrite inout_state_spec, Hin, Hout. Qed.

(** A name listed by two or more entries of [output] has the direction
    [out], whatever [input] says. *)
Lemma inout_state_out_twice (a : Argument) :
  2 <= hits (arg_name a) (FunctionDoc_output (arg_doc a)) ->
  Argument_inout_state a = Ok ("out" : str).
Proof.
  intros Hout. rewrite inout_state_spec.
  destruct (hits _ _) as [|[|k]]; [lia | lia | done].
Qed.

(** C1, at a block that documents [x] under Returned and under Given and
    returned: the section Given and returned lists [x], [input] and
    [output] both list [x], and the direction computed for [x] is [out]. *)
Theorem inout_state_returned_twice :
  (exists m,
     re_search (section_re "Given and returned") (fd_doc twice_returned_doc)
     = Some m /\
     existsb (lists "x") (append_entries [] (split [nl] (group m 2))) = true) /\
  existsb (lists "x") (FunctionDoc_input twice_returned_doc) = true /\
  existsb (lists "x") (FunctionDoc_output twice_returned_doc) = true /\
  hits "x" (FunctionDoc_output twice_returned_doc) = 2 /\
  (a ← Argument_init "double *x" twice_returned_doc; Argument_inout_state a)
  = Ok ("out" : str).
Proof.
  split_and!; [|by vm_compute..].
  eexists. split; [by vm_compute | by vm_compute].
Qed.

(** With the section Given and returned alone, the direction is [inout]. *)
Example inout_state_inout_doc :
  (a ← Argument_init "double *x" inout_doc; Argument_inout_state a)
  = Ok ("inout" : str).
Proof. by vm_compute. Qed.

(** An undocumented work array next to a documented [x]. *)
Lemma undocumented_argument_unknown_witness :
  Argument_inout_state (mkArgument inout_doc "double work[3]" "double[3]" "work")
  = Ok [].
Proof.
  apply (undocumented_argument_unknown
           (mkArgument inout_doc "double work[3]" "double[3]" "work"));
    vm_compute; reflexivity.
Defined.

(** The block whose only section is Given and returned: its one entry is
    read twice into [input] and once into [output]. *)
Lemma given_and_returned_read_twice_witness :
  let x := mkArgumentDoc (Some ("x" : str)) (Some ("double" : str))
             (Some ("value, updated in place" : str)) in
  FunctionDoc_input inout_doc = [x] ++ [x] /\
  FunctionDoc_output inout_doc = [] ++ [x] /\
  forall name,
    inout_of (FunctionDoc_input inout_doc) (FunctionDoc_output inout_doc) name
    = inout_of [x] (FunctionDoc_output inout_doc) name.
Proof.
  intros x.
  assert (entries_of (group inout_match 2) = [x]) as <-
    by (vm_compute; reflexivity).
  assert (section_entries "Returned" (fd_doc inout_doc) = []) as <-
    by (vm_compute; reflexivity).
  apply (given_and_returned_read_twice inout_doc inout_match).
  - vm_compute. reflexivity.
  - intros m'. vm_compute. intros [= <-]. vm_compute. lia.
Defined.

(** ** Splitting a parameter fragment *)

Lemma partition_chr (c : ascii) (s : str) :
  match partition [c] s with
  | Some (a, b) => s = a ++ c :: b /\ contains c a = false
  | None => contains c s = false
  end.
Proof.
  induction s as [|x s IH]; [done|].
  cbn [partition startswith contains existsb]. rewrite andb_true_r.
  destruct (chr_eqb c x) eqn:E.
  - by apply chr_eqb_eq in E as ->.
  - destruct (partition [c] s) as [[a b]|].
    + destruct IH as [-> Ha]. split; [done|].
      cbn [contains existsb]. by rewrite E.
    + done.
Qed.

Lemma contains_rev (c : ascii) (s : str) : contains c (rev s) = contains c s.
Proof.
  unfold contains. induction s as [|x s IH]; [done|].
  simpl. rewrite existsb_app, IH. simpl. rewrite orb_false_r. apply orb_comm.
Qed.

Lemma contains_app (c : ascii) (a b : str) :
  contains c (a ++ b) = contains c a || contains c b.
Proof. apply existsb_app. Qed.

Lemma contains_middle (c : ascii) (a b : str) : contains c (a ++ c :: b) = true.
Proof.
  rewrite contains_app. unfold contains at 2. cbn [existsb].
  by rewrite chr_eqb_refl, orb_true_r.
Qed.

Lemma split1_chr (c : ascii) (s : str) :
  if contains c s
  then exists a b, s = a ++ c :: b /\ contains c a = false /\ split1 [c] s = [a; b]
  else split1 [c] s = [s].
Proof.
  unfold split1. pose proof (partition_chr c s) as H.
  destruct (partition [c] s) as [[a b]|].
  - destruct H as [-> Ha]. rewrite contains_middle. by exists a, b.
  - by rewrite H.
Qed.

Lemma rsplit1_chr (c : ascii) (s : str) :
  if contains c s
  then exists a b, s = a ++ c :: b /\ contains c b = false /\ rsplit1 [c] s = [a; b]
  else rsplit1 [c] s = [s].
Proof.
  unfold rsplit1. change (rev [c]) with [c].
  pose proof (partition_chr c (rev s)) as H. rewrite <- (contains_rev c s).
  destruct (partition [c] (rev s)) as [[b a]|].
  - destruct H as [Hs Hb]. rewrite Hs, contains_middle.
    exists (rev a), (rev b). split_and!; [|by rewrite contains_rev|done].
    rewrite <- (rev_involutive s), Hs, rev_app_distr. simpl.
    by rewrite <- app_assoc.
  - by rewrite H.
Qed.

Lemma Argument_init_spec (fragment : str) (doc : FunctionDoc) :
  let d := strip fragment in
  if contains "*" d then
    exists base name,
      d = base ++ ("*" : str) ++ name /\ contains "*" base = false /\
      Argument_init fragment doc
      = Ok (mkArgument doc d (base ++ ("*" : str)) name)
  else if contains " " d then
    exists base name,
      d = base ++ (" " : str) ++ name /\ contains " " name = false /\
      if contains "[" name then
        exists name' dims,
          name = name' ++ ("[" : str) ++ dims /\ contains "[" name' = false /\
          Argument_init fragment doc
          = Ok (mkArgument doc d (base ++ ("[" : str) ++ dims) name')
      else Argument_init fragment doc = Ok (mkArgument doc d base name)
  else Argument_init fragment doc = Raise unpack_error.
Proof.
  intros d. unfold Argument_init. fold d.
  pose proof (split1_chr "*" d) as Hstar.
  destruct (contains "*" d).
  - destruct Hstar as (base & name & Hd & Hbase & Hsplit).
    exists base, name. change (split1 "*" d) with (split1 ["*"%char] d).
    by rewrite Hsplit.
  - pose proof (rsplit1_chr " " d) as Hsp.
    change (rsplit1 " " d) with (rsplit1 [" "%char] d).
    destruct (contains " " d).
    + destruct Hsp as (base & name & Hd & Hname & Hsplit).
      exists base, name. rewrite Hsplit. split_and!; [done|done|].
      pose proof (split1_chr "[" name) as Hbr.
      change (split1 "[" name) with (split1 ["["%char] name).
      destruct (contains "[" name).
      * destruct Hbr as (name' & dims & Hn & Hn' & Hsplit').
        exists name', dims. by rewrite Hsplit'.
      * done.
    + by rewrite Hsp.
Qed.

Lemma Argument_init_well_formed (fragment : str) (doc : FunctionDoc) :
  well_formed fragment = true ->
  exists x, Argument_init fragment doc = Ok x
            /\ arg_definition x = strip fragment /\ arg_doc x = doc.
Proof.
  unfold well_formed. pose proof (Argument_init_spec fragment doc) as H.
  cbv zeta in H. destruct (contains "*" (strip fragment)).
  - destruct H as (base & name & _ & _ & ->). eauto.
  - destruct (contains " " (strip fragment)); [|done].
    destruct H as (base & name & _ & _ & H).
    destruct (contains "[" name).
    + destruct H as (name' & dims & _ & _ & ->). eauto.
    + rewrite H. eauto.
Qed.

Lemma Argument_init_ill_formed (fragment : str) (doc : FunctionDoc) :
  well_formed fragment = false ->
  Argument_init fragment doc = Raise unpack_error.
Proof.
  unfold well_formed. pose proof (Argument_init_spec fragment doc) as H.
  cbv zeta in H. by destruct (contains "*" _), (contains " " _).
Qed.

(** C4, as the code has it: the fragment is stripped; with a [*] in it, it
    is cut at the first one, the type being the text before it with the [*]
    put back and the name the text after it; without one it is cut at its
    last space character, and a name with a bracket gives up the text from
    its first bracket on to the type; a fragment with neither cannot be
    unpacked and [ValueError] is raised. *)
Theorem argument_split (fragment : str) (doc : FunctionDoc) :
  (let d := strip fragment in
   if contains "*" d then
     exists base name,
       d = base ++ ("*" : str) ++ name /\ contains "*" base = false /\
       Argument_init fragment doc
       = Ok (mkArgument doc d (base ++ ("*" : str)) name)
   else if contains " " d then
     exists base name,
       d = base ++ (" " : str) ++ name /\ contains " " name = false /\
       if contains "[" name then
         exists name' dims,
           name = name' ++ ("[" : str) ++ dims /\ contains "[" name' = false /\
           Argument_init fragment doc
           = Ok (mkArgument doc d (base ++ ("[" : str) ++ dims) name')
       else Argument_init fragment doc = Ok (mkArgument doc d base name)
   else Argument_init fragment doc = Raise unpack_error) /\
  Argument_init "double pv[2][3]" doc
  = Ok (mkArgument doc "double pv[2][3]" "double[2][3]" "pv").
Proof. split; [apply Argument_init_spec | by vm_compute]. Qed.

(** C4 as stated fails on a fragment whose type and name are two spaces
    apart: the type keeps a trailing space. *)
Lemma argument_split_two_spaces :
  split_last_whitespace_run "double  x" = ("double" : str, "x" : str) /\
  (a ← Argument_init "double  x" inout_doc; Ok (arg_ctype a, arg_name a))
  = Ok ("double " : str, "x" : str) /\
  (a ← Argument_init "void" inout_doc; Ok (arg_ctype a, arg_name a))
  = Raise unpack_error.
Proof. by vm_compute. Qed.

(** ** The call type and the descriptor *)

Lemma split_go_chr (c : ascii) (cur base rest : str) :
  contains c base = false ->
  split_go [c] 0 cur (base ++ c :: rest)
  = (rev cur ++ base) :: split_go [c] 0 [] rest.
Proof.
  revert cur. induction base as [|x base IH]; intros cur Hbase.
  - cbn [app split_go startswith length]. rewrite chr_eqb_refl.
    by rewrite app_nil_r.
  - cbn [contains existsb] in Hbase. apply orb_false_iff in Hbase as [Hx Hbase].
    cbn [app split_go startswith]. rewrite Hx. cbn [andb].
    rewrite IH by done. cbn [rev]. by rewrite <- app_assoc.
Qed.

Lemma split_head_chr (c : ascii) (base rest : str) :
  contains c base = false ->
  head (split [c] (base ++ c :: rest)) = Some base.
Proof. intros H. unfold split. by rewrite split_go_chr. Qed.

(** C9, as the code has it: the call type of a spelling that ends with a
    bracket is the text before its first bracket followed by a space and a
    star; otherwise a leading const qualifier is dropped; otherwise the
    spelling is kept.  The descriptor is looked up under the spelling
    itself: an array and a pointer of the same base have the same call type
    and distinct descriptors, and the spelling with a const qualifier has
    the call type of the plain pointer. *)
Theorem ctype_ptr_normalises (a : Argument) :
  (forall base dims,
     arg_ctype a = base ++ ("[" : str) ++ dims ++ ("]" : str) ->
     contains "[" base = false ->
     Argument_ctype_ptr a = Ok (base ++ (" *" : str))) /\
  (forall rest c,
     arg_ctype a = ("const " : str) ++ rest ->
     last (arg_ctype a) = Some c -> c <> "]"%char ->
     Argument_ctype_ptr a = Ok rest) /\
  (forall c,
     last (arg_ctype a) = Some c -> c <> "]"%char ->
     take 6 (arg_ctype a) <> ("const " : str) ->
     Argument_ctype_ptr a = Ok (arg_ctype a)) /\
  Argument_dtype a = dict_getitem ctype_to_dtype (arg_ctype a) /\
  (x ← Argument_init "double a[3]" (arg_doc a);
   p ← Argument_ctype_ptr x; d ← Argument_dtype x; Ok (arg_ctype x, p, d))
  = Ok ("double[3]" : str, "double *" : str,
        "numpy.dtype([('p', 'd', (3,))])" : str) /\
  (x ← Argument_init "int idmsf[4]" (arg_doc a);
   p ← Argument_ctype_ptr x; d ← Argument_dtype x; Ok (arg_ctype x, p, d))
  = Ok ("int[4]" : str, "int *" : str,
        "numpy.dtype([('', 'i', (4,))])" : str) /\
  (x ← Argument_init "int *j" (arg_doc a);
   p ← Argument_ctype_ptr x; d ← Argument_dtype x; Ok (arg_ctype x, p, d))
  = Ok ("int *" : str, "int *" : str, "numpy.int" : str) /\
  (x ← Argument_init "const char *scale" (arg_doc a);
   p ← Argument_ctype_ptr x; Ok (arg_ctype x, p))
  = Ok ("const char *" : str, "char *" : str).
Proof.
  split_and!; try by vm_compute.
  - intros base dims Hc Hbase. unfold Argument_ctype_ptr. rewrite Hc.
    cbn [list_ascii_of_string].
    rewrite !app_assoc, last_snoc, chr_eqb_refl.
    rewrite <- !app_assoc. cbn [app].
    by rewrite (split_head_chr "[" base) by done.
  - intros rest c Hc Hlast Hne. unfold Argument_ctype_ptr. rewrite Hlast.
    destruct (chr_eqb c "]") eqn:E; [by apply chr_eqb_eq in E|].
    rewrite Hc. unfold str_eqb. cbn [list_ascii_of_string app take drop].
    by rewrite bool_decide_true.
  - intros c Hlast Hne Hconst. unfold Argument_ctype_ptr. rewrite Hlast.
    destruct (chr_eqb c "]") eqn:E; [by apply chr_eqb_eq in E|].
    unfold str_eqb. by rewrite bool_decide_false.
Qed.

(** C9 as stated fails on the spelling with a const qualifier: its call
    type is normalised, but the descriptor is looked up under the spelling
    as written, which is not a key of the table. *)
Lemma const_char_has_no_descriptor :
  (x ← Argument_init "const char *scale" inout_doc; Ok (arg_ctype x))
  = Ok ("const char *" : str) /\
  (x ← Argument_init "const char *scale" inout_doc; Argument_ctype_ptr x)
  = Ok ("char *" : str) /\
  (x ← Argument_init "const char *scale" inout_doc; Argument_dtype x)
  = Raise (KeyError "const char *").
Proof. by vm_compute. Qed.

(** ** Construction of a Function *)

Lemma bind_Raise {A B} (e : exn) (k : A -> result B) : (x ← Raise e; k x) = Raise e.
Proof. reflexivity. Qed.

Lemma append_argument_eq (doc : FunctionDoc) (acc : list arg) (frag : str) :
  append_argument doc acc frag
  = (x ← Argument_init frag doc; Ok (acc ++ [AArg x])).
Proof. reflexivity. Qed.

Lemma append_arguments_inv (doc : FunctionDoc) (fragments : list str)
    (acc args : list arg) :
  for_each (append_argument doc) fragments acc = Ok args ->
  exists arguments,
    built_from doc fragments arguments /\ args = acc ++ map AArg arguments.
Proof.
  revert acc. induction fragments as [|frag fragments IH]; intros acc.
  - intros [= <-]. exists []. split; [constructor | by rewrite app_nil_r].
  - rewrite for_each_cons, append_argument_eq.
    destruct (Argument_init frag doc) as [x|e] eqn:E; [|done].
    rewrite !bind_Ok. intros (l & Hl & ->)%IH.
    exists (x :: l). split; [by constructor | by rewrite <- app_assoc].
Qed.

Lemma append_arguments_ok (doc : FunctionDoc) (fragments : list str)
    (acc : list arg) :
  Forall (fun f => well_formed f = true) fragments ->
  exists arguments,
    built_from doc fragments arguments /\
    for_each (append_argument doc) fragments acc = Ok (acc ++ map AArg arguments).
Proof.
  intros H. revert acc. induction H as [|frag fragments Hf _ IH]; intros acc.
  - exists []. split; [constructor | by rewrite app_nil_r].
  - destruct (Argument_init_well_formed frag doc Hf) as (x & Hx & _).
    destruct (IH (acc ++ [AArg x])) as (l & Hl & Hfor).
    exists (x :: l). split; [by constructor|].
    rewrite for_each_cons, append_argument_eq.
    rewrite Hx, !bind_Ok, Hfor. by rewrite <- app_assoc.
Qed.

Lemma append_arguments_raise (doc : FunctionDoc) (fragments : list str)
    (acc : list arg) :
  Exists (fun f => well_formed f = false) fragments ->
  for_each (append_argument doc) fragments acc = Raise unpack_error.
Proof.
  intros H. revert acc. induction H as [frag fragments Hf|frag fragments _ IH];
    intros acc; rewrite for_each_cons, append_argument_eq.
  - by rewrite (Argument_init_ill_formed _ _ Hf).
  - destruct (Argument_init frag doc) as [x|e] eqn:E.
    + rewrite !bind_Ok. apply IH.
    + destruct (well_formed frag) eqn:Hw.
      * destruct (Argument_init_well_formed frag doc Hw) as (x & Hx & _).
        congruence.
      * rewrite (Argument_init_ill_formed _ _ Hw) in E. by injection E as <-.
Qed.



(** *** What a located declaration looks like *)

Lemma match_Opt_inv (c : ascii) (r : list item) (cur : str) (done : list str)
    (s : str) (m : list str * str) :
  match_items (Opt c :: r) cur done s = Some m ->
  exists sp s', s = sp ++ s' /\ (sp = [] \/ sp = [c])
                /\ match_items r cur done s' = Some m.
Proof.
  cbn [match_items]. destruct s as [|x s].
  - intros H. exists [], []. auto.
  - destruct (chr_eqb x c) eqn:E.
    + apply chr_eqb_eq in E as ->.
      destruct (match_items r cur done s) as [m'|] eqn:E'.
      * intros [= <-]. exists [c], s. auto.
      * intros H. exists [], (c :: s). auto.
    + intros H. exists [], (x :: s). auto.
Qed.

Lemma match_Lit_inv (c : ascii) (r : list item) (cur : str) (done : list str)
    (s : str) (m : list str * str) :
  match_items (Lit c :: r) cur done s = Some m ->
  exists s', s = c :: s' /\ match_items r cur done s' = Some m.
Proof.
  cbn [match_items]. destruct s as [|x s]; [done|].
  destruct (chr_eqb x c) eqn:E; [|done].
  apply chr_eqb_eq in E as ->. eauto.
Qed.

Lemma take_app_minus {A} (l k : list A) :
  take (length (l ++ k) - length k) (l ++ k) = l.
Proof.
  rewrite length_app. replace (length l + length k - length k) with (length l) by lia.
  apply take_app_length.
Qed.

Lemma func_re_items (name : str) :
  items (func_re name)
  = Lit nl :: GOpen :: Rep (not_chr nl) 1 true ::
    (lits name ++
     Opt " " :: Lit "(" :: Rep (not_chr ")") 1 true :: Lit ")" :: GClose ::
     [ Rep any 1 false;
       GOpen; Lit "/"; Lit "*"; Rep any 1 false; Lit "*"; Lit "/"; GClose ]).
Proof. reflexivity. Qed.

(** Group 1 of a match of the definition pattern: text on one line, the
    name, maybe a space, and a parenthesised text without closing
    parenthesis. *)
Lemma func_re_group1 (name : str) (s : str) (gs : list str) (rest : str) :
  here (items (func_re name)) s = Some (gs, rest) ->
  exists pre sp params,
    all_in (not_chr nl) pre /\ (sp = [] \/ sp = [" "%char]) /\
    all_in (not_chr ")") params /\ 1 <= length params /\
    head gs = Some (pre ++ name ++ sp ++ "("%char :: params ++ [")"%char]).
Proof.
  unfold here. rewrite func_re_items.
  intros (s1 & -> & H)%match_Lit_inv.
  rewrite match_GOpen, match_greedy in H.
  apply rep_greedy_sound in H as (pre & t & -> & Hpre & _ & H).
  rewrite match_lits in H.
  destruct (startswith name t) eqn:Hs; [|done].
  apply startswith_spec in Hs as [t2 ->]. rewrite drop_app_length in H.
  apply match_Opt_inv in H as (sp & t3 & -> & Hsp & H).
  apply match_Lit_inv in H as (t4 & -> & H).
  rewrite match_greedy in H.
  apply rep_greedy_sound in H as (params & t5 & -> & Hparams & Hlen & H).
  apply match_Lit_inv in H as (t6 & -> & H).
  rewrite match_GClose, match_items_done in H.
  destruct (match_items _ _ [] t6) as [[gs' rest']|]; [|done].
  injection H as <- <-.
  exists pre, sp, params. split_and!; [done|done|done|simpl in Hlen; lia|].
  cbn [rev app head]. f_equal.
  replace (pre ++ name ++ sp ++ "("%char :: params ++ ")"%char :: t6)
    with ((pre ++ name ++ sp ++ "("%char :: params ++ [")"%char]) ++ t6).
  - apply take_app_minus.
  - rewrite <- !app_assoc. cbn [app]. by rewrite <- !app_assoc.
Qed.

(** In such a text the parameter pattern has a match, *)
Lemma paren_search_some (pre params post : str) :
  all_in (not_chr ")") params -> 1 <= length params ->
  is_Some (re_search paren_re (pre ++ "("%char :: params ++ ")"%char :: post)).
Proof.
  intros Hparams Hlen. unfold re_search. cbn [anchored paren_re items].
  destruct (search_from_leftmost
              [Lit "("; GOpen; Rep (not_chr ")") 1 true; GClose; Lit ")"] 0
              (pre ++ "("%char :: params ++ ")"%char :: post) (length pre))
    as (p & gs & rest & _ & -> & _); [rewrite length_app; lia| |done].
  rewrite drop_app_length. unfold here.
  rewrite match_Lit, chr_eqb_refl, match_GOpen, match_greedy.
  apply rep_greedy_complete; [done | lia |].
  by rewrite match_GClose, match_Lit, chr_eqb_refl.
Qed.

(** and so has the return type pattern. *)
Lemma ret_search_some (name pre post : str) :
  all_in (not_chr nl) pre ->
  is_Some (re_search (ret_re name) (pre ++ name ++ post)).
Proof.
  intros Hpre. unfold re_search. cbn [anchored ret_re items].
  rewrite match_at_here. unfold here. cbn [app].
  rewrite match_GOpen, match_greedy.
  destruct (rep_greedy_complete dot 0
              (match_items (GClose :: lits name) (pre ++ name ++ post) [])
              0 pre (name ++ post)) as [[gs rest] ->]; [done | lia | | done].
  rewrite match_GClose, <- (app_nil_r (lits name)), match_lits, startswith_app.
  done.
Qed.

Lemma located_searches (name : str) (contents : str) (search : MatchObject) :
  re_search (func_re name) contents = Some search ->
  is_Some (re_search paren_re (group search 1)) /\
  is_Some (re_search (ret_re name) (group search 1)).
Proof.
  unfold re_search at 1. cbn [anchored func_re].
  intros (p & gs & rest & _ & -> & Hh & _)%search_from_elim.
  apply (func_re_group1 name) in Hh
    as (pre & sp & params & Hpre & Hsp & Hparams & Hlen & Hgs).
  unfold group. cbn [groups]. change (1 - 1) with 0.
  rewrite <- head_lookup, Hgs. cbn [default id]. split.
  - replace (pre ++ name ++ sp ++ "("%char :: params ++ [")"%char])
      with ((pre ++ name ++ sp) ++ "("%char :: params ++ [")"%char])
      by by rewrite <- !app_assoc.
    by apply paren_search_some.
  - by apply ret_search_some.
Qed.

(** *** The steps of [Function.__init__] *)

Lemma Function_init_located (fs : FileSystem) (name source_path : str)
    (match_line : option str) (contents : str) (search m m' : MatchObject) :
  read_contents fs (Function_filepath fs name source_path) match_line
  = Ok contents ->
  re_search (func_re name) contents = Some search ->
  re_search paren_re (group search 1) = Some m ->
  re_search (ret_re name) (group search 1) = Some m' ->
  Function_init fs name source_path match_line
  = (args ← for_each (append_argument (FunctionDoc_init (group search 2)))
                     (split "," (group m 1)) [];
     Ok (assemble fs name source_path (group search 1)
           (FunctionDoc_init (group search 2)) (strip (group m' 1)) args)).
Proof.
  intros Hread Hsearch Hm Hm'. unfold Function_init.
  rewrite Hread, bind_Ok, Hsearch. cbv zeta. rewrite Hm.
  destruct (for_each _ _ _) as [args|e]; [|done].
  by rewrite !bind_Ok, Hm'.
Qed.

(** Without a match of the definition pattern, [search] is [None] and
    reading its group raises [AttributeError]. *)
Lemma Function_init_not_located (fs : FileSystem) (name source_path : str)
    (match_line : option str) (contents : str) :
  read_contents fs (Function_filepath fs name source_path) match_line
  = Ok contents ->
  re_search (func_re name) contents = None ->
  Function_init fs name source_path match_line = Raise none_group_error.
Proof.
  intros Hread Hsearch. unfold Function_init.
  by rewrite Hread, bind_Ok, Hsearch.
Qed.

Lemma Function_init_inv (fs : FileSystem) (name source_path : str)
    (match_line : option str) (f : Function) :
  Function_init fs name source_path match_line = Ok f ->
  exists contents search m m' args,
    read_contents fs (Function_filepath fs name source_path) match_line
    = Ok contents /\
    re_search (func_re name) contents = Some search /\
    re_search paren_re (group search 1) = Some m /\
    re_search (ret_re name) (group search 1) = Some m' /\
    for_each (append_argument (FunctionDoc_init (group search 2)))
             (split "," (group m 1)) [] = Ok args /\
    f = assemble fs name source_path (group search 1)
          (FunctionDoc_init (group search 2)) (strip (group m' 1)) args.
Proof.
  intros H.
  destruct (read_contents fs (Function_filepath fs name source_path) match_line)
    as [contents|e] eqn:Hread.
  2: { unfold Function_init in H. by rewrite Hread in H. }
  destruct (re_search (func_re name) contents) as [search|] eqn:Hsearch.
  2: { by rewrite (Function_init_not_located _ _ _ _ _ Hread Hsearch) in H. }
  destruct (located_searches _ _ _ Hsearch) as [[m Hm] [m' Hm']].
  rewrite (Function_init_located _ _ _ _ _ _ _ _ Hread Hsearch Hm Hm') in H.
  destruct (for_each _ _ _) as [args|e] eqn:Hargs; [|done].
  rewrite bind_Ok in H. injection H as <-.
  by exists contents, search, m, m', args.
Qed.


(** ** What construction gives *)

(** C3, at a source file that does not define the function asked for: the
    search finds nothing and construction raises the [AttributeError] of
    reading a group of [None], whose text names neither the function nor the
    file nor the pattern, whereas a missing [match_line] raises a
    [ValueError] that quotes the line and the file. *)
Theorem search_failure_has_no_context :
  re_search (func_re "eraFoo") sepp_c = None /\
  Function_init (one_file sepp_c) "eraFoo" "erfa.c" None
  = Raise (AttributeError "'NoneType' object has no attribute 'group'") /\
  Function_init (one_file swap_c) "eraBar" "other.c" None
  = Raise (AttributeError "'NoneType' object has no attribute 'group'") /\
  Function_init (one_file sepp_c) "eraFoo" "erfa.c" (Some ("double eraFoo" : str))
  = Raise (match_line_error "double eraFoo" "erfa.c").
Proof. by vm_compute. Qed.


(** A fragment that cannot be unpacked makes construction raise. *)
Lemma ill_formed_fragment_raises (fs : FileSystem) (name source_path : str)
    (match_line : option str) (contents : str) (search m : MatchObject) :
  read_contents fs (Function_filepath fs name source_path) match_line
  = Ok contents ->
  re_search (func_re name) contents = Some search ->
  re_search paren_re (group search 1) = Some m ->
  Exists (fun f => well_formed f = false) (split "," (group m 1)) ->
  Function_init fs name source_path match_line = Raise unpack_error.
Proof.
  intros Hread Hsearch Hm Hbad.
  destruct (located_searches _ _ _ Hsearch) as [_ [m' Hm']].
  rewrite (Function_init_located _ _ _ _ _ _ _ _ Hread Hsearch Hm Hm').
  by rewrite append_arguments_raise.
Qed.

Example no_return_slot_for_void :
  Function_init (one_file swap_c) "eraSwap" "erfa.c" None = Ok swap_function /\
  fn_ret swap_function = ("void" : str) /\
  fn_args swap_function
  = [AArg (mkArgument (fn_doc swap_function) "double *a" "double *" "a");
     AArg (mkArgument (fn_doc swap_function) "double *b" "double *" "b")] /\
  traverse arg_inout_state (fn_args swap_function)
  = Ok [("inout" : str); ("inout" : str)].
Proof. split_and!; vm_compute; reflexivity. Qed.

(** ** Selecting arguments by direction *)

Lemma arg_inout_state_direction (a : arg) : arg_inout_state a = Ok (direction a).
Proof.
  unfold direction. destruct a as [x|r]; [|done]. cbn [arg_inout_state].
  by destruct (inout_state_total x) as [st ->].
Qed.

Lemma select_arg_eq (inout_filter : str) (prop : option attribute)
    (acc : list pyobj) (a : arg) :
  select_arg inout_filter prop acc a
  = if bool_decide (selected inout_filter a) then
      match prop with
      | None => Ok (acc ++ [OArg a])
      | Some p => v ← getattr a p; Ok (acc ++ [OStr v])
      end
    else Ok acc.
Proof. unfold select_arg. by rewrite arg_inout_state_direction, bind_Ok. Qed.

Lemma select_loop_all (inout_filter : str) (args : list arg) (acc : list pyobj) :
  for_each (select_arg inout_filter None) args acc
  = Ok (acc ++ map OArg (filter (selected inout_filter) args)).
Proof.
  revert acc. induction args as [|a args IH]; intros acc.
  - by rewrite app_nil_r.
  - rewrite for_each_cons, select_arg_eq, filter_cons.
    case_bool_decide; rewrite bind_Ok, IH.
    + rewrite decide_True by done. by rewrite <- app_assoc.
    + by rewrite decide_False by done.
Qed.






(** * Further properties *)

(** ** The direction as a table *)

(** X1: the direction of an argument is decided by whether some entry of
    [input] lists its name and by how many entries of [output] do: none and
    none give the empty direction, an input entry alone [in], an input entry
    and exactly one output entry [inout], and every other case [out]. *)
Theorem inout_state_table (a : Argument) :
  Argument_inout_state a
  = Ok (direction_table
          (existsb (lists (arg_name a)) (FunctionDoc_input (arg_doc a)))
          (hits (arg_name a) (FunctionDoc_output (arg_doc a)))).
Proof.
  rewrite inout_state_spec.
  by destruct (existsb _ _), (hits _ _) as [|[|k]].
Qed.

(** ** The order of the entries does not matter *)

Lemma has_name_named (e : ArgumentDoc) : has_name e = true <-> named e.
Proof.
  unfold has_name, named. by destruct (ad_name e).
Qed.

Lemma forallb_has_name (l : list ArgumentDoc) :
  forallb has_name l = true <-> Forall named l.
Proof.
  rewrite forallb_forall, Forall_forall. split; intros H e He.
  - apply has_name_named, H. by apply list_elem_of_In.
  - apply has_name_named, H. by apply list_elem_of_In.
Qed.

Lemma inout_in_unnamed (name st : str) (e : ArgumentDoc) :
  has_name e = false -> inout_in name st e = Raise none_split_error.
Proof. unfold has_name, inout_in. by destruct (ad_name e). Qed.

Lemma inout_out_unnamed (name st : str) (e : ArgumentDoc) :
  has_name e = false -> inout_out name st e = Raise none_split_error.
Proof. unfold has_name, inout_out. by destruct (ad_name e). Qed.

Lemma inputs_loop_unnamed (name : str) (l : list ArgumentDoc) (st : str) :
  forallb has_name l = false ->
  for_each (inout_in name) l st = Raise none_split_error.
Proof.
  revert st. induction l as [|e l IH]; intros st; [done|]. cbn [forallb].
  rewrite for_each_cons. destruct (has_name e) eqn:He.
  - cbn [andb]. intros Hl. apply has_name_named in He.
    by rewrite inout_in_named, bind_Ok, IH.
  - intros _. by rewrite inout_in_unnamed.
Qed.

Lemma outputs_loop_unnamed (name : str) (l : list ArgumentDoc) (st : str) :
  forallb has_name l = false ->
  for_each (inout_out name) l st = Raise none_split_error.
Proof.
  revert st. induction l as [|e l IH]; intros st; [done|]. cbn [forallb].
  rewrite for_each_cons. destruct (has_name e) eqn:He.
  - cbn [andb]. intros Hl. apply has_name_named in He.
    by rewrite inout_out_named, bind_Ok, IH.
  - intros _. by rewrite inout_out_unnamed.
Qed.

Lemma inout_of_gen (inputs outputs : list ArgumentDoc) (name : str) :
  inout_of inputs outputs name
  = if forallb has_name inputs && forallb has_name outputs
    then Ok (after_outputs (if existsb (lists name) inputs then "in" else [])
                           (hits name outputs))
    else Raise none_split_error.
Proof.
  unfold inout_of.
  destruct (forallb has_name inputs) eqn:Hi.
  - apply forallb_has_name in Hi. rewrite inputs_loop, bind_Ok by done.
    destruct (forallb has_name outputs) eqn:Ho.
    + apply forallb_has_name in Ho. by rewrite outputs_loop.
    + by rewrite outputs_loop_unnamed.
  - by rewrite inputs_loop_unnamed.
Qed.

Lemma forallb_Permutation {A} (f : A -> bool) (l l' : list A) :
  l ≡ₚ l' -> forallb f l = forallb f l'.
Proof.
  induction 1 as [|x l l' _ IH|x y l|l l' l'' _ IH1 _ IH2]; cbn [forallb].
  - done.
  - by rewrite IH.
  - by destruct (f x), (f y).
  - by rewrite IH1.
Qed.

Lemma existsb_Permutation {A} (f : A -> bool) (l l' : list A) :
  l ≡ₚ l' -> existsb f l = existsb f l'.
Proof.
  induction 1 as [|x l l' _ IH|x y l|l l' l'' _ IH1 _ IH2]; cbn [existsb].
  - done.
  - by rewrite IH.
  - by destruct (f x), (f y).
  - by rewrite IH1.
Qed.

Lemma hits_Permutation (name : str) (l l' : list ArgumentDoc) :
  l ≡ₚ l' -> hits name l = hits name l'.
Proof. intros H. unfold hits. by rewrite H. Qed.

(** X2: the direction computed from two lists of entries does not depend on
    the order of the entries in either list. *)
Theorem inout_of_order_irrelevant (inputs inputs' outputs outputs' : list ArgumentDoc)
    (name : str) :
  inputs ≡ₚ inputs' -> outputs ≡ₚ outputs' ->
  inout_of inputs outputs name = inout_of inputs' outputs' name.
Proof.
  intros Hi Ho. rewrite !inout_of_gen.
  rewrite (forallb_Permutation _ _ _ Hi), (forallb_Permutation _ _ _ Ho).
  by rewrite (existsb_Permutation _ _ _ Hi), (hits_Permutation _ _ _ Ho).
Qed.

(** The entries of the block that documents [x] twice, in the other order. *)
Lemma inout_of_order_irrelevant_witness :
  inout_of (FunctionDoc_input twice_returned_doc)
           (FunctionDoc_output twice_returned_doc) "x"
  = inout_of (rev (FunctionDoc_input twice_returned_doc))
             (rev (FunctionDoc_output twice_returned_doc)) "x".
Proof.
  apply (inout_of_order_irrelevant
           (FunctionDoc_input twice_returned_doc)
           (rev (FunctionDoc_input twice_returned_doc))
           (FunctionDoc_output twice_returned_doc)
           (rev (FunctionDoc_output twice_returned_doc)) "x").
  - apply Permutation_rev.
  - apply Permutation_rev.
Defined.

(** ** What a constructed function holds *)

Lemma lstrip_split (s : str) :
  exists w, s = w ++ lstrip s /\ Forall (fun c => isspace c = true) w.
Proof.
  induction s as [|c s (w & Hs & Hw)]; [by exists []|]. cbn [lstrip].
  destruct (isspace c) eqn:Hc.
  - exists (c :: w). split; [by rewrite <- app_comm_cons, <- Hs | by constructor].
  - by exists [].
Qed.

Lemma lstrip_head (s : str) (c : ascii) (t : str) :
  lstrip s = c :: t -> isspace c = false.
Proof.
  induction s as [|x s IH]; [done|]. cbn [lstrip].
  destruct (isspace x) eqn:Hx; [done|]. by intros [= <- _].
Qed.

Lemma rstrip_prefix (s : str) : exists w, s = rstrip s ++ w.
Proof.
  unfold rstrip. destruct (lstrip_split (rev s)) as (w & Hs & _).
  exists (rev w). rewrite <- rev_app_distr, <- Hs. by rewrite rev_involutive.
Qed.

(** The stripped text does not start with a whitespace character. *)
Lemma strip_head (s : str) (c : ascii) (t : str) :
  strip s = c :: t -> isspace c = false.
Proof.
  unfold strip. destruct (rstrip_prefix (lstrip s)) as (w & Hw).
  intros E. rewrite E in Hw. by apply (lstrip_head s c (t ++ w)).
Qed.

Lemma Argument_init_fields (fragment : str) (doc : FunctionDoc) (x : Argument) :
  Argument_init fragment doc = Ok x ->
  arg_doc x = doc /\ arg_definition x = strip fragment /\ arg_ctype x <> [].
Proof.
  pose proof (Argument_init_spec fragment doc) as H. cbv zeta in H.
  destruct (contains "*" (strip fragment)).
  - destruct H as (base & name & _ & _ & ->). intros [= <-]. cbn.
    split_and!; [done|done|]. by destruct base.
  - destruct (contains " " (strip fragment)); [|by rewrite H].
    destruct H as (base & name & Hd & _ & H).
    assert (base <> []) as Hbase.
    { intros ->. apply (strip_head fragment " " name) in Hd. done. }
    destruct (contains "[" name).
    + destruct H as (name' & dims & _ & _ & ->). intros [= <-]. cbn.
      split_and!; [done|done|]. by destruct base.
    + rewrite H. by intros [= <-].
Qed.

Lemma Argument_ctype_ptr_ok (x : Argument) :
  arg_ctype x <> [] -> exists p, Argument_ctype_ptr x = Ok p.
Proof.
  intros H. unfold Argument_ctype_ptr.
  destruct (last (arg_ctype x)) as [c|] eqn:E.
  - destruct (chr_eqb c "]"); [eauto|]. destruct (str_eqb _ _); eauto.
  - by apply last_None in E.
Qed.

Lemma built_from_fields (doc : FunctionDoc) (fragments : list str)
    (arguments : list Argument) :
  built_from doc fragments arguments ->
  Forall (fun x => arg_doc x = doc /\ arg_ctype x <> []) arguments.
Proof.
  induction 1 as [|frag x fragments arguments Hx _ IH]; constructor; [|done].
  apply Argument_init_fields in Hx. tauto.
Qed.

(** X3: every argument of a constructed function holds the documentation
    block of the function, and has a type that is not empty, so that asking
    for its call type never raises. *)
Theorem constructed_arguments (fs : FileSystem) (name source_path : str)
    (match_line : option str) (f : Function) :
  Function_init fs name source_path match_line = Ok f ->
  forall x, AArg x ∈ fn_args f ->
    arg_doc x = fn_doc f /\ arg_ctype x <> [] /\
    exists p, Argument_ctype_ptr x = Ok p.
Proof.
  intros (contents & search & m & m' & args & _ & _ & _ & _ & Hargs & ->)
    %Function_init_inv.
  apply append_arguments_inv in Hargs as (arguments & Hbuilt & ->).
  apply built_from_fields in Hbuilt.
  cbn [assemble fn_args fn_doc app]. intros x Hx.
  assert (x ∈ arguments) as Hin.
  { destruct (str_eqb _ _).
    - apply elem_of_app in Hx as [Hx|Hx].
      + apply list_elem_of_fmap in Hx as (y & [= ->] & Hy). done.
      + apply list_elem_of_singleton in Hx. done.
    - apply list_elem_of_fmap in Hx as (y & [= ->] & Hy). done. }
  rewrite Forall_forall in Hbuilt. destruct (Hbuilt x Hin) as [Hdoc Hc].
  split_and!; [done | done | by apply Argument_ctype_ptr_ok].
Qed.

(** The first argument of eraSepp. *)
Lemma constructed_arguments_witness :
  arg_doc (mkArgument (fn_doc sepp_function) "double a[3]" "double[3]" "a")
  = fn_doc sepp_function /\
  arg_ctype (mkArgument (fn_doc sepp_function) "double a[3]" "double[3]" "a")
  <> [] /\
  exists p,
    Argument_ctype_ptr
      (mkArgument (fn_doc sepp_function) "double a[3]" "double[3]" "a") = Ok p.
Proof.
  apply (constructed_arguments (one_file sepp_c) "eraSepp" "erfa.c" None
           sepp_function).
  - vm_compute. reflexivity.
  - vm_compute. left.
Defined.

(** X4: a return slot of a constructed function has the type [double], for
    which the table has a descriptor: its [dtype] never raises. *)
Theorem return_slot_has_descriptor (fs : FileSystem) (name source_path : str)
    (match_line : option str) (f : Function) :
  Function_init fs name source_path match_line = Ok f ->
  forall r, ARet r ∈ fn_args f ->
    ret_ctype r = ("double" : str) /\ ret_ctype_ptr r = ("double" : str) /\
    Return_dtype r = Ok ("numpy.double" : str).
Proof.
  intros (contents & search & m & m' & args & _ & _ & _ & _ & Hargs & ->)
    %Function_init_inv.
  apply append_arguments_inv in Hargs as (arguments & _ & ->).
  cbn [assemble fn_args app]. intros r Hr. unfold str_eqb in Hr.
  case_bool_decide as Hret.
  - apply elem_of_app in Hr as [Hr|Hr].
    + apply list_elem_of_fmap in Hr as (y & [=] & _).
    + apply list_elem_of_singleton in Hr as [= ->]. rewrite Hret.
      split_and!; by vm_compute.
  - apply list_elem_of_fmap in Hr as (y & [=] & _).
Qed.

(** The return slot of eraSepp. *)
Lemma return_slot_has_descriptor_witness :
  ret_ctype (mkReturn "ret" "double" "ret" "double") = ("double" : str) /\
  ret_ctype_ptr (mkReturn "ret" "double" "ret" "double") = ("double" : str) /\
  Return_dtype (mkReturn "ret" "double" "ret" "double")
  = Ok ("numpy.double" : str).
Proof.
  apply (return_slot_has_descriptor (one_file sepp_c) "eraSepp" "erfa.c" None
           sepp_function).
  - vm_compute. reflexivity.
  - vm_compute. right. right. left.
Defined.

(** ** The ways construction ends *)

Lemma Forall_or_Exists_ill_formed (fragments : list str) :
  Forall (fun f => well_formed f = true) fragments \/
  Exists (fun f => well_formed f = false) fragments.
Proof.
  induction fragments as [|frag fragments [IH|IH]].
  - left. constructor.
  - destruct (well_formed frag) eqn:E.
    + left. by constructor.
    + right. by constructor.
  - right. by constructor.
Qed.


(** X5: for a name made of word characters, construction ends in one of
    five ways: the file cannot be opened
    ([IOError]); a [match_line] is given and no line starts with it
    ([ValueError] quoting the line and the path); the definition pattern has
    no match ([AttributeError]); the declaration is located and one of its
    fragments cannot be unpacked ([ValueError]); or it succeeds.  Once the
    declaration is located, the searches for the parameter list and for the
    return type always find a match. *)
Theorem Function_init_outcomes (fs : FileSystem) (name source_path : str)
    (match_line : option str) :
  all_in word name ->
  let path := Function_filepath fs name source_path in
  let outcome := Function_init fs name source_path match_line in
  (read_file fs path = None /\ outcome = Raise (IOError path)) \/
  (exists text l,
     read_file fs path = Some text /\ truthy match_line = Some l /\
     skip_to l (readlines text) = None /\
     outcome = Raise (match_line_error l path)) \/
  (exists contents,
     read_contents fs path match_line = Ok contents /\
     re_search (func_re name) contents = None /\
     outcome = Raise none_group_error) \/
  (exists contents search m,
     read_contents fs path match_line = Ok contents /\
     re_search (func_re name) contents = Some search /\
     re_search paren_re (group search 1) = Some m /\
     Exists (fun f => well_formed f = false) (split "," (group m 1)) /\
     outcome = Raise unpack_error) \/
  (exists contents search m m' f,
     read_contents fs path match_line = Ok contents /\
     re_search (func_re name) contents = Some search /\
     re_search paren_re (group search 1) = Some m /\
     re_search (ret_re name) (group search 1) = Some m' /\
     Forall (fun f => well_formed f = true) (split "," (group m 1)) /\
     outcome = Ok f).
Proof.
  intros _ path outcome.
  destruct (read_contents fs path match_line) as [contents|e] eqn:Hread.
  - do 2 right.
    destruct (re_search (func_re name) contents) as [search|] eqn:Hsearch.
    + right. destruct (located_searches _ _ _ Hsearch) as [[m Hm] [m' Hm']].
      destruct (Forall_or_Exists_ill_formed (split "," (group m 1))) as [Hwf|Hbad].
      * right. exists contents, search, m, m'.
        destruct (append_arguments_ok (FunctionDoc_init (group search 2)) _ [] Hwf)
          as (arguments & _ & Hfor).
        eexists. split_and!; [done..|].
        unfold outcome.
        rewrite (Function_init_located _ _ _ _ _ _ _ _ Hread Hsearch Hm Hm').
        by rewrite Hfor, bind_Ok.
      * left. exists contents, search, m. split_and!; [done..|].
        unfold outcome.
        rewrite (Function_init_located _ _ _ _ _ _ _ _ Hread Hsearch Hm Hm').
        by rewrite append_arguments_raise.
    + left. exists contents. split_and!; [done..|].
      by apply (Function_init_not_located _ _ _ _ contents).
  - assert (outcome = Raise e) as Hout.
    { unfold outcome, Function_init. fold path. by rewrite Hread. }
    unfold read_contents in Hread.
    destruct (read_file fs path) as [text|] eqn:Hfile.
    + right. left. destruct (truthy match_line) as [l|] eqn:Hl; [|done].
      destruct (skip_to l (readlines text)) eqn:Hskip; [done|].
      injection Hread as <-. by exists text, l.
    + left. injection Hread as <-. done.
Qed.

(** A name that the source file does not define. *)
Lemma Function_init_outcomes_witness :
  let path := Function_filepath (one_file sepp_c) "eraFoo" "erfa.c" in
  let outcome := Function_init (one_file sepp_c) "eraFoo" "erfa.c" None in
  (read_file (one_file sepp_c) path = None /\ outcome = Raise (IOError path)) \/
  (exists text l,
     read_file (one_file sepp_c) path = Some text /\ truthy None = Some l /\
     skip_to l (readlines text) = None /\
     outcome = Raise (match_line_error l path)) \/
  (exists contents,
     read_contents (one_file sepp_c) path None = Ok contents /\
     re_search (func_re "eraFoo") contents = None /\
     outcome = Raise none_group_error) \/
  (exists contents search m,
     read_contents (one_file sepp_c) path None = Ok contents /\
     re_search (func_re "eraFoo") contents = Some search /\
     re_search paren_re (group search 1) = Some m /\
     Exists (fun f => well_formed f = false) (split "," (group m 1)) /\
     outcome = Raise unpack_error) \/
  (exists contents search m m' f,
     read_contents (one_file sepp_c) path None = Ok contents /\
     re_search (func_re "eraFoo") contents = Some search /\
     re_search paren_re (group search 1) = Some m /\
     re_search (ret_re "eraFoo") (group search 1) = Some m' /\
     Forall (fun f => well_formed f = true) (split "," (group m 1)) /\
     outcome = Ok f).
Proof.
  apply (Function_init_outcomes (one_file sepp_c) "eraFoo" "erfa.c" None).
  by repeat constructor.
Defined.

(** ** Joining without a projection *)

Lemma strings_of_args (l : list arg) :
  strings_of (map OArg l)
  = match l with
    | [] => Ok []
    | a :: _ => Raise (join_type_error 0 (class_name a))
    end.
Proof. by destruct l. Qed.

(** X6: with a delimiter and no attribute to project to, [args_by_inout]
    gives the empty text when nothing is selected, and otherwise raises the
    [TypeError] of [join] on its first item, which is an object and no
    text: the message names item 0 and the class of the first selected
    argument. *)
Theorem args_by_inout_join_objects (f : Function) (inout_filter j : str) :
  Function_args_by_inout f inout_filter None (Some j)
  = match filter (selected inout_filter) (fn_args f) with
    | [] => Ok (VStr [])
    | a :: _ =>
        Raise (TypeError
                 (("sequence item 0: expected str instance, " : str)
                  ++ class_name a ++ (" found" : str)))
    end.
Proof.
  unfold Function_args_by_inout. rewrite select_loop_all, bind_Ok.
  cbn [app]. rewrite strings_of_args. by destruct (filter _ _).
Qed.

(** ** Lines of a section *)

Lemma occurs_spec (p s : str) :
  occurs p s = true <-> exists a b, s = a ++ p ++ b.
Proof.
  split.
  - induction s as [|c s IH]; cbn [occurs].
    + rewrite orb_false_r. intros [t ->]%startswith_spec. by exists [], t.
    + intros [[t ->]%startswith_spec|(a & b & ->)%IH]%orb_true_iff.
      * by exists [], t.
      * by exists (c :: a), b.
  - intros (a & b & ->). induction a as [|c a IH].
    + destruct (p ++ b) eqn:E; cbn [occurs app]; rewrite <- E;
        by rewrite startswith_app.
    + cbn [app occurs]. by rewrite IH, orb_true_r.
Qed.

(** A greedy repetition followed by a character outside the class, or by
    the end of the text, takes the whole run when the rest of the pattern
    matches after it. *)
Lemma rep_greedy_exact {A} (cls : ascii -> bool) (lo : nat)
    (k : str -> option A) (n : nat) (run rest : str) (r : A) :
  all_in cls run ->
  match rest with [] => True | c :: _ => cls c = false end ->
  lo <= n + length run ->
  k rest = Some r ->
  rep_greedy cls lo k n (run ++ rest) = Some r.
Proof.
  intros Hrun Hrest. revert n.
  induction Hrun as [|c run Hc _ IH]; intros n Hlo Hk.
  - simpl in Hlo. rewrite app_nil_l.
    destruct rest as [|c rest]; cbn [rep_greedy].
    + by rewrite (proj2 (Nat.leb_le _ _)) by lia.
    + rewrite Hrest. by rewrite (proj2 (Nat.leb_le _ _)) by lia.
  - cbn [app rep_greedy]. rewrite Hc.
    rewrite IH; [done | simpl in Hlo; lia | done].
Qed.

Lemma rep_greedy_total {A} (cls : ascii -> bool) (lo : nat)
    (k : str -> option A) (n : nat) (s : str) :
  (forall t, is_Some (k t)) -> lo <= n -> is_Some (rep_greedy cls lo k n s).
Proof.
  intros Hk Hlo. rewrite <- (app_nil_l s).
  apply rep_greedy_complete; [constructor | simpl; lia | done].
Qed.

(** When the rest of the pattern cannot fail, a greedy repetition takes the
    longest run. *)
Lemma rep_greedy_longest {A} (cls : ascii -> bool) (lo : nat)
    (k : str -> option A) (n : nat) (s : str) (r : A) :
  (forall t, is_Some (k t)) ->
  rep_greedy cls lo k n s = Some r ->
  exists run rest,
    s = run ++ rest /\ all_in cls run /\ lo <= n + length run /\
    k rest = Some r /\
    match rest with [] => True | c :: _ => cls c = false end.
Proof.
  intros Hk. revert n. induction s as [|c s IH]; intros n; cbn [rep_greedy].
  - destruct (Nat.leb_spec lo n); [|done]. intros Hr.
    exists [], []. split_and!; [done | constructor | simpl; lia | done | done].
  - destruct (cls c) eqn:Hc.
    + destruct (rep_greedy cls lo k (S n) s) as [r'|] eqn:E.
      * intros [= ->]. destruct (IH _ E) as (run & rest & -> & Hrun & Hlo & Hr & Hrest).
        exists (c :: run), rest.
        split_and!; [done | by constructor | simpl; lia | done | done].
      * destruct (Nat.leb_spec lo n); [|done]. intros _.
        destruct (rep_greedy_total cls lo k (S n) s Hk) as [? Hsome]; [lia|].
        congruence.
    + destruct (Nat.leb_spec lo n); [|done]. intros Hr.
      exists [], (c :: s).
      split_and!; [done | constructor | simpl; lia | done | done].
Qed.

Lemma argdoc_re_items :
  items argdoc_re
  = Rep (is_chr " ") 1 true ::
    GOpen :: Rep (not_chr " ") 1 true :: GClose ::
    Rep (is_chr " ") 1 true ::
    GOpen :: Rep (not_chr " ") 1 true :: GClose ::
    Rep (is_chr " ") 1 true ::
    GOpen :: Rep dot 1 true :: GClose :: [].
Proof. reflexivity. Qed.

(** The shape of a line that the entry pattern matches. *)
Lemma argdoc_match_shape (line : str) (gs : list str) (rest : str) :
  here (items argdoc_re) line = Some (gs, rest) ->
  exists s1 n s2 t s3 d,
    line = s1 ++ n ++ s2 ++ t ++ s3 ++ d ++ rest /\
    gs = [n; t; d] /\
    all_in (is_chr " ") s1 /\ s1 <> [] /\
    all_in (not_chr " ") n /\ n <> [] /\
    all_in (is_chr " ") s2 /\ s2 <> [] /\
    all_in (not_chr " ") t /\ t <> [] /\
    all_in (is_chr " ") s3 /\ s3 <> [] /\
    all_in dot d /\ d <> [] /\
    match rest with [] => True | c :: _ => c = nl end.
Proof.
  assert (Hne : forall (l : str), 1 <= 0 + length l -> l <> []).
  { intros [|? ?] ?; [simpl in *; lia | done]. }
  unfold here. rewrite argdoc_re_items. rewrite match_greedy.
  intros (s1 & l1 & -> & Hs1 & Hl1 & H)%rep_greedy_sound.
  rewrite match_GOpen, match_greedy in H.
  apply rep_greedy_sound in H as (n & l2 & -> & Hn & Hln & H).
  rewrite match_GClose, take_app_minus, match_greedy in H.
  apply rep_greedy_sound in H as (s2 & l3 & -> & Hs2 & Hl2 & H).
  rewrite match_GOpen, match_greedy in H.
  apply rep_greedy_sound in H as (t & l4 & -> & Ht & Hlt & H).
  rewrite match_GClose, take_app_minus, match_greedy in H.
  apply rep_greedy_sound in H as (s3 & l5 & -> & Hs3 & Hl3 & H).
  rewrite match_GOpen, match_greedy in H.
  apply rep_greedy_longest in H as (d & l6 & -> & Hd & Hld & H & Hend);
    [|by intros u; rewrite match_GClose].
  rewrite match_GClose, take_app_minus in H. cbn [match_items rev app] in H.
  injection H as <- <-.
  exists s1, n, s2, t, s3, d. split_and!; auto.
  destruct l6 as [|c l6]; [done|]. unfold dot, not_chr in Hend.
  apply negb_false_iff, chr_eqb_eq in Hend. done.
Qed.

(** X7: a line gives an entry only if it is made of one or more spaces, a
    name without space, spaces, a type without space, spaces, and a
    description of one or more characters that runs to the end of the line;
    otherwise the three fields are [None] together.  In particular a line that
    does not start with a space gives no entry. *)
Theorem ArgumentDoc_init_shape (line : str) :
  match ad_name (ArgumentDoc_init line) with
  | None => ArgumentDoc_init line = mkArgumentDoc None None None
  | Some n =>
      exists t d s1 s2 s3 rest,
        ArgumentDoc_init line = mkArgumentDoc (Some n) (Some t) (Some d) /\
        line = s1 ++ n ++ s2 ++ t ++ s3 ++ d ++ rest /\
        all_in (is_chr " ") s1 /\ s1 <> [] /\
        all_in (not_chr " ") n /\ n <> [] /\
        all_in (is_chr " ") s2 /\ s2 <> [] /\
        all_in (not_chr " ") t /\ t <> [] /\
        all_in (is_chr " ") s3 /\ s3 <> [] /\
        all_in dot d /\ d <> [] /\
        match rest with [] => True | c :: _ => c = nl end
  end.
Proof.
  unfold ArgumentDoc_init, re_search. cbn [anchored argdoc_re].
  rewrite match_at_here.
  destruct (here (items argdoc_re) line) as [[gs rest]|] eqn:E; [|done].
  cbn [fmap option_fmap option_map ad_name].
  apply argdoc_match_shape in E
    as (s1 & n & s2 & t & s3 & d & Hline & -> & H).
  exists t, d, s1, s2, s3, rest. split; [done|]. split; [done|]. exact H.
Qed.

Lemma after_spaces (x c : ascii) (l : str) :
  all_in (not_chr x) (c :: l) -> is_chr x c = false.
Proof.
  intros H. apply Forall_cons_1 in H as [H _]. unfold not_chr in H.
  unfold is_chr. by apply negb_true_iff in H.
Qed.

Lemma after_word (x c : ascii) (l : str) :
  all_in (is_chr x) (c :: l) -> not_chr x c = false.
Proof.
  intros H. apply Forall_cons_1 in H as [H _]. unfold is_chr in H.
  unfold not_chr. by rewrite H.
Qed.

Lemma nonempty_length (l : str) : l <> [] -> 1 <= 0 + length l.
Proof. destruct l; [done | simpl; lia]. Qed.

(** The three columns of a line are read back exactly. *)
Lemma argdoc_columns (s1 n s2 t s3 d rest : str) :
  all_in (is_chr " ") s1 -> s1 <> [] ->
  all_in (not_chr " ") n -> n <> [] ->
  all_in (is_chr " ") s2 -> s2 <> [] ->
  all_in (not_chr " ") t -> t <> [] ->
  all_in (is_chr " ") s3 -> s3 <> [] ->
  all_in dot d -> head d <> None -> head d <> Some " "%char ->
  head rest = None \/ head rest = Some nl ->
  ArgumentDoc_init (s1 ++ n ++ s2 ++ t ++ s3 ++ d ++ rest)
  = mkArgumentDoc (Some n) (Some t) (Some d).
Proof.
  intros Hs1 Hs1' Hn Hn' Hs2 Hs2' Ht Ht' Hs3 Hs3' Hd Hd' Hd'' Hrest.
  unfold ArgumentDoc_init, re_search. cbn [anchored argdoc_re].
  rewrite match_at_here.
  assert (here (items argdoc_re) (s1 ++ n ++ s2 ++ t ++ s3 ++ d ++ rest)
          = Some ([n; t; d], rest)) as ->; [|done].
  unfold here. rewrite argdoc_re_items, match_greedy.
  apply rep_greedy_exact; [done | | by apply nonempty_length |].
  { destruct n as [|c n]; [done|]. by eapply after_spaces. }
  rewrite match_GOpen, match_greedy.
  apply rep_greedy_exact; [done | | by apply nonempty_length |].
  { destruct s2 as [|c s2]; [done|]. by eapply after_word. }
  rewrite match_GClose, take_app_minus, match_greedy.
  apply rep_greedy_exact; [done | | by apply nonempty_length |].
  { destruct t as [|c t]; [done|]. by eapply after_spaces. }
  rewrite match_GOpen, match_greedy.
  apply rep_greedy_exact; [done | | by apply nonempty_length |].
  { destruct s3 as [|c s3]; [done|]. by eapply after_word. }
  rewrite match_GClose, take_app_minus, match_greedy.
  apply rep_greedy_exact; [done | | by apply nonempty_length |].
  { destruct d as [|c d]; [done|]. cbn [app]. unfold is_chr.
    destruct (chr_eqb c " ") eqn:E; [|done].
    apply chr_eqb_eq in E as ->. done. }
  rewrite match_GOpen, match_greedy.
  apply rep_greedy_exact; [done | | apply nonempty_length; by destruct d |].
  { destruct rest as [|c rest]; [done|]. destruct Hrest as [Hrest|Hrest]; [done|].
    injection Hrest as ->. by vm_compute. }
  by rewrite match_GClose, take_app_minus.
Qed.

(** X8: a line made of spaces, a name, spaces, a type, spaces and a
    description that does not start with a space and runs to the end of the
    line is read as exactly that name, type and description. *)
Theorem ArgumentDoc_init_columns (s1 n s2 t s3 d rest : str) :
  all_in (is_chr " ") s1 -> s1 <> [] ->
  all_in (not_chr " ") n -> n <> [] ->
  all_in (is_chr " ") s2 -> s2 <> [] ->
  all_in (not_chr " ") t -> t <> [] ->
  all_in (is_chr " ") s3 -> s3 <> [] ->
  all_in dot d -> head d <> None -> head d <> Some " "%char ->
  head rest = None \/ head rest = Some nl ->
  ArgumentDoc_init (s1 ++ n ++ s2 ++ t ++ s3 ++ d ++ rest)
  = mkArgumentDoc (Some n) (Some t) (Some d).
Proof. exact (argdoc_columns s1 n s2 t s3 d rest). Qed.

(** A line of a documentation block, with its three columns. *)
Lemma ArgumentDoc_init_columns_witness :
  ArgumentDoc_init (("    " : str) ++ ("a" : str) ++ ("        " : str)
                    ++ ("double[3]" : str) ++ ("    " : str)
                    ++ ("first vector" : str) ++ [])
  = mkArgumentDoc (Some ("a" : str)) (Some ("double[3]" : str))
      (Some ("first vector" : str)).
Proof.
  apply (ArgumentDoc_init_columns "    " "a" "        " "double[3]" "    "
           "first vector" []);
    try (by repeat constructor); try (by vm_compute); by left.
Defined.

Lemma all_in_replicate (n : nat) : all_in (is_chr " ") (replicate n " "%char).
Proof. induction n; by constructor. Qed.

(** X9: the text [__repr__] gives for an entry is read back as the same
    entry, when the name and the type are not empty and have no space, and
    the description is not empty, has no newline and does not start with a
    space. *)
Theorem ArgumentDoc_repr_read_back (n t d : str) :
  all_in (not_chr " ") n -> n <> [] ->
  all_in (not_chr " ") t -> t <> [] ->
  all_in dot d -> head d <> None -> head d <> Some " "%char ->
  exists line,
    ArgumentDoc_repr (mkArgumentDoc (Some n) (Some t) (Some d)) = Ok line /\
    ArgumentDoc_init line = mkArgumentDoc (Some n) (Some t) (Some d).
Proof.
  intros Hn Hn' Ht Ht' Hd Hd' Hd''. eexists. split; [reflexivity|].
  cbn [ad_doc default]. unfold ljust. rewrite <- !app_assoc.
  rewrite (app_assoc (replicate _ _) (" " : str)).
  rewrite (app_assoc (replicate (15 - length t) _) (" " : str)).
  rewrite <- (app_nil_r d) at 1.
  apply argdoc_columns; try done.
  - by repeat constructor.
  - apply Forall_app. split; [apply all_in_replicate | by repeat constructor].
  - by destruct (replicate (15 - length n) " "%char).
  - apply Forall_app. split; [apply all_in_replicate | by repeat constructor].
  - by destruct (replicate (15 - length t) " "%char).
  - by left.
Qed.

(** The entry of the first vector of eraSepp. *)
Lemma ArgumentDoc_repr_read_back_witness :
  exists line,
    ArgumentDoc_repr
      (mkArgumentDoc (Some ("a" : str)) (Some ("double[3]" : str))
         (Some ("first vector" : str))) = Ok line /\
    ArgumentDoc_init line
    = mkArgumentDoc (Some ("a" : str)) (Some ("double[3]" : str))
        (Some ("first vector" : str)).
Proof.
  apply (ArgumentDoc_repr_read_back "a" "double[3]" "first vector");
    try (by repeat constructor); by vm_compute.
Defined.

(** ** The text searched for the declaration *)

Lemma readlines_go_concat (cur s : str) :
  concat (readlines_go cur s) = rev cur ++ s.
Proof.
  revert cur. induction s as [|c s IH]; intros cur; cbn [readlines_go].
  - destruct cur; [done|]. cbn [concat]. by rewrite app_nil_r.
  - destruct (chr_eqb c nl).
    + cbn [concat]. rewrite IH. cbn [rev app]. by rewrite <- app_assoc.
    + rewrite IH. cbn [rev]. by rewrite <- app_assoc.
Qed.

Lemma readlines_concat (s : str) : concat (readlines s) = s.
Proof. apply readlines_go_concat. Qed.

Lemma skip_to_spec (match_line : str) (lines : list str) :
  match skip_to match_line lines with
  | Some contents =>
      exists skipped line rest,
        lines = skipped ++ line :: rest /\
        Forall (fun l => startswith match_line l = false) skipped /\
        startswith match_line line = true /\
        contents = nl :: line ++ concat rest
  | None => Forall (fun l => startswith match_line l = false) lines
  end.
Proof.
  induction lines as [|l lines IH]; cbn [skip_to]; [constructor|].
  destruct (startswith match_line l) eqn:E.
  - exists [], l, lines. by split_and!.
  - destruct (skip_to match_line lines) as [contents|].
    + destruct IH as (skipped & line & rest & -> & Hs & Hl & ->).
      exists (l :: skipped), line, rest. split_and!; try done. by constructor.
    + by constructor.
Qed.

(** X10: with a [match_line], the text searched is a newline followed by the
    file from its first line that starts with [match_line]; the lines before
    it are dropped, and the error quoting the line and the path is raised
    exactly when no line of the file starts with it. *)
Theorem read_contents_from_match_line (fs : FileSystem) (filepath ml text : str) :
  read_file fs filepath = Some text -> ml <> [] ->
  match read_contents fs filepath (Some ml) with
  | Ok contents =>
      exists skipped line rest,
        readlines text = skipped ++ line :: rest /\
        text = concat skipped ++ line ++ concat rest /\
        Forall (fun l => startswith ml l = false) skipped /\
        startswith ml line = true /\
        contents = nl :: line ++ concat rest
  | Raise e =>
      e = match_line_error ml filepath /\
      Forall (fun l => startswith ml l = false) (readlines text)
  end.
Proof.
  intros Hread Hml. unfold read_contents. rewrite Hread.
  destruct ml as [|c ml]; [done|]. cbn [truthy].
  pose proof (skip_to_spec (c :: ml) (readlines text)) as H.
  destruct (skip_to (c :: ml) (readlines text)) as [contents|]; [|done].
  destruct H as (skipped & line & rest & Hlines & Hs & Hl & ->).
  exists skipped, line, rest. split_and!; try done.
  rewrite <- (readlines_concat text) at 1. rewrite Hlines.
  by rewrite concat_app.
Qed.

(** The source of eraSepp, searched from the line of its declaration. *)
Lemma read_contents_from_match_line_witness :
  match read_contents (one_file sepp_c) "erfa.c" (Some ("double eraSepp" : str)) with
  | Ok contents =>
      exists skipped line rest,
        readlines sepp_c = skipped ++ line :: rest /\
        sepp_c = concat skipped ++ line ++ concat rest /\
        Forall (fun l => startswith "double eraSepp" l = false) skipped /\
        startswith "double eraSepp" line = true /\
        contents = nl :: line ++ concat rest
  | Raise e =>
      e = match_line_error "double eraSepp" "erfa.c" /\
      Forall (fun l => startswith "double eraSepp" l = false) (readlines sepp_c)
  end.
Proof.
  apply (read_contents_from_match_line (one_file sepp_c) "erfa.c"
           "double eraSepp" sepp_c); [reflexivity | done].
Defined.

(** ** Names and paths *)

Lemma split_go_skip (sep : str) (cur pre s : str) :
  split_go sep (length pre) cur (pre ++ s) = split_go sep 0 cur s.
Proof. induction pre as [|c pre IH]; [done|]. cbn [length app split_go]. apply IH. Qed.

Lemma split_go_absent (sep : str) (cur s : str) :
  occurs sep s = false -> split_go sep 0 cur s = [rev cur ++ s].
Proof.
  revert cur. induction s as [|c s IH]; intros cur; cbn [occurs split_go].
  - by rewrite app_nil_r.
  - intros [Hs Ho]%orb_false_iff. rewrite Hs, (IH _ Ho).
    cbn [rev]. by rewrite <- app_assoc.
Qed.

Lemma split_prefix (sep rest : str) :
  sep <> [] -> occurs sep rest = false -> split sep (sep ++ rest) = [[]; rest].
Proof.
  intros Hsep Ho. destruct sep as [|a sep]; [done|].
  unfold split. change ((a :: sep) ++ rest) with (a :: (sep ++ rest)).
  cbn [split_go].
  change (a :: (sep ++ rest)) with ((a :: sep) ++ rest).
  rewrite startswith_app.
  replace (length (a :: sep) - 1) with (length sep) by (simpl; lia).
  by rewrite split_go_skip, split_go_absent.
Qed.

Lemma read_contents_opened (fs : FileSystem) (filepath : str)
    (match_line : option str) (contents : str) :
  read_contents fs filepath match_line = Ok contents ->
  is_Some (read_file fs filepath).
Proof. unfold read_contents. by destruct (read_file fs filepath). Qed.

(** X11: a constructed function keeps its name; its file name is the Python
    name followed by [.c]; the file read is the one at [filepath], which is
    the source path itself unless that is a directory; and the Python name
    is the name without a leading [era], in lower case, when [era] does not
    occur again in it. *)
Theorem constructed_names (fs : FileSystem) (name source_path : str)
    (match_line : option str) (f : Function) :
  Function_init fs name source_path match_line = Ok f ->
  fn_name f = name /\
  fn_filename f = fn_pyname f ++ (".c" : str) /\
  fn_filepath f
  = (if isdir fs source_path
     then path_join (normpath fs source_path) (fn_filename f)
     else source_path) /\
  is_Some (read_file fs (fn_filepath f)) /\
  (forall rest, name = ("era" : str) ++ rest -> occurs "era" rest = false ->
                fn_pyname f = lower rest) /\
  (occurs "era" name = false -> fn_pyname f = lower name).
Proof.
  intros (contents & search & m & m' & args & Hread & _ & _ & _ & _ & ->)%Function_init_inv.
  unfold assemble. cbn [fn_name fn_filename fn_pyname fn_filepath].
  split_and!; try done.
  - by eapply read_contents_opened.
  - intros rest -> Ho. by rewrite split_prefix.
  - intros Ho. unfold split. by rewrite split_go_absent.
Qed.

Lemma constructed_names_witness :
  fn_name sepp_function = ("eraSepp" : str) /\
  fn_filename sepp_function = fn_pyname sepp_function ++ (".c" : str) /\
  fn_filepath sepp_function
  = (if isdir (one_file sepp_c) "erfa.c"
     then path_join (normpath (one_file sepp_c) "erfa.c") (fn_filename sepp_function)
     else "erfa.c") /\
  is_Some (read_file (one_file sepp_c) (fn_filepath sepp_function)) /\
  (forall rest, ("eraSepp" : str) = ("era" : str) ++ rest ->
                occurs "era" rest = false ->
                fn_pyname sepp_function = lower rest) /\
  (occurs "era" "eraSepp" = false -> fn_pyname sepp_function = lower "eraSepp").
Proof.
  apply (constructed_names (one_file sepp_c) "eraSepp" "erfa.c" None sepp_function).
  vm_compute. reflexivity.
Defined.

(** ** The normalised documentation text *)

Lemma replace_pair (a b : ascii) (new s : str) :
  replace [a; b] new s
  = match s with
    | [] => []
    | c :: s' =>
        if startswith [a; b] s then new ++ replace [a; b] new (drop 1 s')
        else c :: replace [a; b] new s'
    end.
Proof.
  unfold replace. destruct s as [|c s']; [done|]. cbn [replace_go].
  destruct (startswith [a; b] (c :: s')) eqn:E; [|done].
  destruct s' as [|d s'']; [|done].
  cbn in E. by rewrite andb_false_r in E.
Qed.

Lemma startswith_cons (a c : ascii) (p s : str) :
  startswith (a :: p) (c :: s) = chr_eqb a c && startswith p s.
Proof. reflexivity. Qed.

Lemma startswith_pair (a b : ascii) (s : str) :
  startswith [a; b] s = true -> exists t, s = a :: b :: t.
Proof. intros [t ->]%startswith_spec. by exists t. Qed.

Lemma blanked_refl (s : str) : blanked s s.
Proof. induction s; constructor; [by left | done]. Qed.

Lemma blanked_trans (s r t : str) : blanked s r -> blanked r t -> blanked s t.
Proof.
  intros H. revert t. induction H as [|c c' s r Hc _ IH]; intros t Ht.
  - inversion Ht. constructor.
  - inversion Ht as [|? c'' ? t' Hc' Ht']; subst. constructor; [|by apply IH].
    destruct Hc' as [->|[-> Hc']]; [done|].
    destruct Hc as [->|[-> _]]; [by right|].
    by destruct Hc'.
Qed.

Lemma replace_pair_blanked (a b : ascii) (s : str) :
  a = "*"%char \/ a = "/"%char -> b = "*"%char \/ b = "/"%char ->
  blanked s (replace [a; b] "  " s).
Proof.
  intros Ha Hb. remember (length s) as n eqn:Hn.
  revert s Hn. induction (lt_wf n) as [n _ IH]; intros s ->.
  rewrite replace_pair. destruct s as [|c s']; [constructor|].
  destruct (startswith [a; b] (c :: s')) eqn:E.
  - apply startswith_pair in E as [t [= -> ->]]. cbn [drop]. rewrite drop_0.
    change (blanked (a :: b :: t) (" "%char :: " "%char :: replace [a; b] "  " t)).
    constructor; [right; by split|]. constructor; [right; by split|].
    eapply IH; [|reflexivity]. simpl. lia.
  - constructor; [by left|]. eapply IH; [|reflexivity]. simpl. lia.
Qed.

Lemma blanked_startswith (p s r : str) :
  blanked s r -> Forall (fun c => c <> " "%char) p ->
  startswith p r = true -> startswith p s = true.
Proof.
  intros H Hp. revert s r H.
  induction Hp as [|x p Hx _ IH]; intros s r H; [done|].
  destruct H as [|c c' s r Hc H]; [done|]. cbn [startswith].
  intros [Hxc Hr]%andb_true_iff. apply chr_eqb_eq in Hxc as ->.
  destruct Hc as [->|[-> _]]; [|done].
  by rewrite chr_eqb_refl, (IH _ _ H Hr).
Qed.

Lemma blanked_occurs (p s r : str) :
  blanked s r -> Forall (fun c => c <> " "%char) p ->
  occurs p s = false -> occurs p r = false.
Proof.
  intros H Hp. induction H as [|c c' s r Hc H IH].
  - done.
  - cbn [occurs]. intros [Hs Ho]%orb_false_iff.
    rewrite (IH Ho), orb_false_r.
    destruct (startswith p (c' :: r)) eqn:E; [|done].
    rewrite (blanked_startswith p (c :: s) (c' :: r)) in Hs; try done.
    by constructor.
Qed.

Lemma replace_pair_absent (a b : ascii) (s : str) :
  a = "*"%char \/ a = "/"%char -> b = "*"%char \/ b = "/"%char ->
  occurs [a; b] (replace [a; b] "  " s) = false.
Proof.
  intros Ha Hb.
  assert (a <> " "%char) as Ha' by (by destruct Ha as [-> | ->]).
  assert (b <> " "%char) as Hb' by (by destruct Hb as [-> | ->]).
  remember (length s) as n eqn:Hn.
  revert s Hn. induction (lt_wf n) as [n _ IH]; intros s ->.
  rewrite replace_pair. destruct s as [|c s']; [done|].
  destruct (startswith [a; b] (c :: s')) eqn:E.
  - apply startswith_pair in E as [t [= -> ->]]. cbn [drop]. rewrite drop_0.
    change (occurs [a; b] (" "%char :: " "%char :: replace [a; b] "  " t) = false).
    assert (chr_eqb a " " = false) as Hsp.
    { destruct (chr_eqb a " ") eqn:E; [|done]. by apply chr_eqb_eq in E. }
    cbn [occurs startswith]. rewrite Hsp. cbn [andb orb].
    eapply IH; [|reflexivity]. simpl. lia.
  - cbn [occurs]. rewrite (IH (length s')); [|simpl; lia|done].
    rewrite orb_false_r.
    destruct (startswith [a; b] (c :: replace [a; b] "  " s')) eqn:E'; [|done].
    rewrite startswith_cons in E, E'. apply andb_true_iff in E' as [Hac Hr].
    rewrite Hac in E. cbn [andb] in E.
    rewrite (blanked_startswith [b] s' (replace [a; b] "  " s')) in E; try done.
    + by apply replace_pair_blanked.
    + by constructor.
Qed.

(** X12: the documentation text kept by [FunctionDoc] is the comment with
    some of its stars and slashes turned into spaces, character for
    character; none of the three comment markers occurs in it. *)
Theorem FunctionDoc_init_blanks (doc : str) :
  blanked doc (fd_doc (FunctionDoc_init doc)) /\
  length (fd_doc (FunctionDoc_init doc)) = length doc /\
  occurs "**" (fd_doc (FunctionDoc_init doc)) = false /\
  occurs "/*" (fd_doc (FunctionDoc_init doc)) = false /\
  occurs "*/" (fd_doc (FunctionDoc_init doc)) = false.
Proof.
  unfold FunctionDoc_init. cbn [fd_doc].
  set (d1 := replace "**" "  " doc).
  set (d2 := replace "/*" "  " d1).
  assert (blanked doc d1) as H1 by (apply (replace_pair_blanked "*" "*"); by left).
  assert (blanked d1 d2) as H2
    by (apply (replace_pair_blanked "/" "*"); [by right | by left]).
  assert (blanked d2 (replace "*/" "  " d2)) as H3
    by (apply (replace_pair_blanked "*" "/"); [by left | by right]).
  assert (blanked doc (replace "*/" "  " d2)) as H
    by (eapply blanked_trans; [eapply blanked_trans|]; done).
  split_and!.
  - done.
  - symmetry. by eapply Forall2_length.
  - eapply blanked_occurs; [exact H3 | by repeat constructor |].
    eapply blanked_occurs; [exact H2 | by repeat constructor |].
    apply (replace_pair_absent "*" "*"); by left.
  - eapply blanked_occurs; [exact H3 | by repeat constructor |].
    apply (replace_pair_absent "/" "*"); [by right | by left].
  - apply (replace_pair_absent "*" "/"); [by left | by right].
Qed.

(** ** The text of a section *)

(** A lazy repetition stops at the first length at which the rest of the
    pattern matches. *)
Lemma rep_lazy_shortest {A} (cls : ascii -> bool) (lo : nat)
    (k : str -> option A) (n : nat) (s : str) (r : A) :
  rep_lazy cls lo k n s = Some r ->
  exists run rest,
    s = run ++ rest /\ all_in cls run /\ lo <= n + length run /\
    k rest = Some r /\
    forall j, j < length run -> lo <= n + j -> k (drop j s) = None.
Proof.
  revert n. induction s as [|c s IH]; intros n; cbn [rep_lazy].
  - destruct (Nat.leb_spec lo n) as [Hlo|]; [|done].
    destruct (k []) as [r'|] eqn:E; [|done]. intros [= ->].
    exists [], []. split_and!; [done | constructor | simpl; lia | done |].
    intros j Hj. simpl in Hj. lia.
  - destruct (if lo <=? n then k (c :: s) else None) as [r'|] eqn:E.
    + intros [= ->]. destruct (Nat.leb_spec lo n) as [Hlo|]; [|done].
      exists [], (c :: s). split_and!; [done | constructor | simpl; lia | done |].
      intros j Hj. simpl in Hj. lia.
    + destruct (cls c) eqn:Hc; [|done].
      intros (run & rest & -> & Hrun & Hlo & Hk & Hmin)%IH.
      exists (c :: run), rest.
      split_and!; [done | by constructor | simpl; lia | done |].
      intros [|j] Hj Hloj.
      * rewrite drop_0. destruct (Nat.leb_spec lo n); [done|lia].
      * cbn [drop]. apply Hmin; [simpl in Hj; lia | lia].
Qed.

Lemma all_in_not_chr (c : ascii) (x : str) :
  all_in (not_chr c) x -> contains c x = false.
Proof.
  induction 1 as [|d x Hd _ IH]; [done|]. cbn [contains existsb].
  fold (contains c x). rewrite IH, orb_false_r.
  unfold not_chr in Hd. apply negb_true_iff in Hd. by rewrite chr_eqb_sym.
Qed.

Lemma section_end_matches (cur : str) (done : list str) (t : str) :
  startswith [" "; " "; nl]%char t = true ->
  is_Some (match_items [GClose; Lit " "; Lit " "; Lit nl] cur done t).
Proof.
  intros [w ->]%startswith_spec. rewrite match_GClose. cbn [app].
  rewrite !match_Lit, !chr_eqb_refl. by eexists.
Qed.

(** X13: a section found in the documentation text is laid out as the
    header, the rest of its line up to a colon, and a body that is not empty
    and ends before the first line break that follows two spaces; group 2 is
    that body, and nothing of the header line but its end is kept. *)
Theorem section_match_shape (header doc : str) (m : MatchObject) :
  re_search (section_re header) doc = Some m ->
  exists x rest,
    doc = take (mstart m) doc ++ header ++ x ++ ":"%char :: nl ::
          group m 2 ++ " "%char :: " "%char :: nl :: rest /\
    mstart m <= length doc /\
    group m 1 = x /\ contains nl x = false /\
    group m 2 <> [] /\
    forall j, 0 < j < length (group m 2) ->
      startswith [" "; " "; nl]%char
        (drop j (group m 2 ++ " "%char :: " "%char :: nl :: rest)) = false.
Proof.
  rewrite re_search_section.
  intros (p & gs & rest & Hp & -> & H & _)%search_from_elim.
  unfold here in H. rewrite match_lits in H.
  destruct (startswith header (drop p doc)) eqn:Hs; [|done].
  apply startswith_spec in Hs as [t Ht]. rewrite Ht, drop_app_length in H.
  unfold section_tail in H. rewrite match_GOpen, match_greedy in H.
  apply rep_greedy_sound in H as (x & t1 & -> & Hx & _ & H).
  rewrite match_GClose, take_app_minus in H.
  apply match_Lit_inv in H as (t2 & -> & H).
  apply match_Lit_inv in H as (t3 & -> & H).
  rewrite match_GOpen, match_lazy in H.
  apply rep_lazy_shortest in H as (body & t4 & -> & _ & Hlen & H & Hmin).
  rewrite match_GClose, take_app_minus in H.
  apply match_Lit_inv in H as (t5 & -> & H).
  apply match_Lit_inv in H as (t6 & -> & H).
  apply match_Lit_inv in H as (t7 & -> & H).
  cbn [match_items rev app] in H. injection H as <- <-.
  exists x, t7.
  change (group (Match (0 + p) [x; body]) 2) with body.
  change (group (Match (0 + p) [x; body]) 1) with x.
  change (mstart (Match (0 + p) [x; body])) with p.
  split_and!.
  - rewrite <- Ht. by rewrite take_drop.
  - done.
  - done.
  - by apply all_in_not_chr.
  - destruct body; [simpl in Hlen; lia | done].
  - intros j [Hj0 Hj].
    destruct (startswith [" "; " "; nl]%char
                (drop j (body ++ " "%char :: " "%char :: nl :: t7))) eqn:E; [|done].
    apply (section_end_matches (body ++ " "%char :: " "%char :: nl :: t7) [x]) in E.
    rewrite (Hmin j) in E; [by destruct E | done | lia].
Qed.

(** The section of the block of [x]. *)
Lemma section_match_shape_witness :
  exists x rest,
    fd_doc inout_doc
    = take (mstart inout_match) (fd_doc inout_doc) ++
      ("Given and returned" : str) ++ x ++ ":"%char :: nl ::
      group inout_match 2 ++ " "%char :: " "%char :: nl :: rest /\
    mstart inout_match <= length (fd_doc inout_doc) /\
    group inout_match 1 = x /\ contains nl x = false /\
    group inout_match 2 <> [] /\
    forall j, 0 < j < length (group inout_match 2) ->
      startswith [" "; " "; nl]%char
        (drop j (group inout_match 2 ++ " "%char :: " "%char :: nl :: rest)) = false.
Proof.
  apply (section_match_shape "Given and returned" (fd_doc inout_doc) inout_match).
  vm_compute. reflexivity.
Defined.

(** ** The parts of the located declaration *)

(** A greedy repetition takes the longest run of the class after which the
    rest of the pattern matches. *)
Lemma rep_greedy_maximal {A} (cls : ascii -> bool) (lo : nat)
    (k : str -> option A) (n : nat) (s : str) (r : A) :
  rep_greedy cls lo k n s = Some r ->
  exists run rest,
    s = run ++ rest /\ all_in cls run /\ lo <= n + length run /\
    k rest = Some r /\
    forall run' rest', s = run' ++ rest' -> all_in cls run' ->
                       length run < length run' -> k rest' = None.
Proof.
  revert n. induction s as [|c s IH]; intros n; cbn [rep_greedy].
  - destruct (Nat.leb_spec lo n) as [Hlo|]; [|done]. intros Hr.
    exists [], []. split_and!; [done | constructor | simpl; lia | done |].
    intros run' rest' Hs _ Hlen. symmetry in Hs.
    apply app_eq_nil in Hs as [-> _]. simpl in Hlen. lia.
  - destruct (cls c) eqn:Hc.
    + destruct (rep_greedy cls lo k (S n) s) as [r'|] eqn:E.
      * intros [= ->].
        destruct (IH _ E) as (run & rest & -> & Hrun & Hlo & Hr & Hmax).
        exists (c :: run), rest.
        split_and!; [done | by constructor | simpl; lia | done |].
        intros run' rest' Hs Hrun' Hlen.
        destruct run' as [|c' run']; [simpl in Hlen; lia|].
        injection Hs as <- Hs. apply (Hmax run' rest' Hs).
        -- by apply Forall_cons_1 in Hrun' as [_ ?].
        -- simpl in Hlen. lia.
      * destruct (Nat.leb_spec lo n) as [Hlo|]; [|done]. intros Hr.
        exists [], (c :: s).
        split_and!; [done | constructor | simpl; lia | done |].
        intros run' rest' Hs Hrun' Hlen.
        destruct run' as [|c' run']; [simpl in Hlen; lia|].
        injection Hs as <- Hs. apply Forall_cons_1 in Hrun' as [_ Hrun'].
        destruct (k rest') as [r''|] eqn:Hk; [|done].
        destruct (rep_greedy_complete cls lo k (S n) run' rest') as [? Hsome];
          [done | lia | by rewrite Hk |].
        rewrite <- Hs in Hsome. congruence.
    + destruct (Nat.leb_spec lo n) as [Hlo|]; [|done]. intros Hr.
      exists [], (c :: s).
      split_and!; [done | constructor | simpl; lia | done |].
      intros run' rest' Hs Hrun' Hlen.
      destruct run' as [|c' run']; [simpl in Hlen; lia|].
      injection Hs as <- Hs. apply Forall_cons_1 in Hrun' as [Hc' _]. congruence.
Qed.

Lemma func_re_parts (name : str) (s : str) (gs : list str) (rest : str) :
  here (items (func_re name)) s = Some (gs, rest) ->
  exists pre sp params,
    all_in (not_chr nl) pre /\ pre <> [] /\ (sp = [] \/ sp = [" "%char]) /\
    all_in (not_chr ")") params /\ params <> [] /\
    head gs = Some (pre ++ name ++ sp ++ "("%char :: params ++ [")"%char]).
Proof.
  unfold here. rewrite func_re_items.
  intros (s1 & -> & H)%match_Lit_inv.
  rewrite match_GOpen, match_greedy in H.
  apply rep_greedy_sound in H as (pre & t & -> & Hpre & Hlen' & H).
  rewrite match_lits in H.
  destruct (startswith name t) eqn:Hs; [|done].
  apply startswith_spec in Hs as [t2 ->]. rewrite drop_app_length in H.
  apply match_Opt_inv in H as (sp & t3 & -> & Hsp & H).
  apply match_Lit_inv in H as (t4 & -> & H).
  rewrite match_greedy in H.
  apply rep_greedy_sound in H as (params & t5 & -> & Hparams & Hlen & H).
  apply match_Lit_inv in H as (t6 & -> & H).
  rewrite match_GClose, match_items_done in H.
  destruct (match_items _ _ [] t6) as [[gs' rest']|]; [|done].
  injection H as <- <-.
  exists pre, sp, params. split_and!; try done.
  - destruct pre; [simpl in Hlen'; lia | done].
  - destruct params; [simpl in Hlen; lia | done].
  - cbn [rev app head]. f_equal.
    replace (pre ++ name ++ sp ++ "("%char :: params ++ ")"%char :: t6)
      with ((pre ++ name ++ sp ++ "("%char :: params ++ [")"%char]) ++ t6).
    + apply take_app_minus.
    + rewrite <- !app_assoc. cbn [app]. by rewrite <- !app_assoc.
Qed.

Lemma contains_elem (c : ascii) (s : str) (x : ascii) :
  contains c s = false -> x ∈ s -> chr_eqb x c = false.
Proof.
  intros Hc Hx. destruct (chr_eqb x c) eqn:E; [|done].
  apply chr_eqb_eq in E as ->.
  apply list_elem_of_split in Hx as (a & b & ->).
  by rewrite contains_middle in Hc.
Qed.

(** The parameter pattern finds the first parenthesis of a text when what
    precedes it has none. *)
Lemma paren_search_first (before params : str) :
  contains "(" before = false ->
  all_in (not_chr ")") params -> params <> [] ->
  re_search paren_re (before ++ "("%char :: params ++ [")"%char])
  = Some (Match (length before) [params]).
Proof.
  intros Hb Hparams Hne. unfold re_search. cbn [anchored paren_re items].
  apply (search_from_intro _ 0 _ (length before) [params] []).
  - rewrite length_app. lia.
  - rewrite drop_app_length. unfold here.
    rewrite match_Lit, chr_eqb_refl, match_GOpen, match_greedy.
    apply rep_greedy_exact; [done | done | destruct params; [done | simpl; lia] |].
    by rewrite match_GClose, take_app_minus, match_Lit, chr_eqb_refl.
  - intros q Hq.
    destruct (lookup_lt_is_Some_2 before q Hq) as [c Hc].
    rewrite (drop_S _ c q) by (by rewrite lookup_app_l).
    unfold here. rewrite match_Lit.
    by rewrite (contains_elem "(" before c Hb) by (by eapply list_elem_of_lookup_2).
Qed.

Lemma startswith_drop_occurs (p t : str) (d : nat) :
  1 <= d -> startswith p (drop d t) = true -> occurs p (drop 1 t) = true.
Proof.
  intros Hd [w Hw]%startswith_spec. apply occurs_spec.
  exists (take (d - 1) (drop 1 t)), w.
  rewrite <- Hw. replace d with (1 + (d - 1)) at 2 by lia.
  rewrite <- drop_drop. by rewrite take_drop.
Qed.

(** The return type pattern keeps what precedes the last place of the first
    line where the name starts. *)
Lemma ret_search_last (name pre tail : str) (m : MatchObject) :
  all_in (not_chr nl) pre ->
  occurs name (drop 1 (name ++ tail)) = false ->
  re_search (ret_re name) (pre ++ name ++ tail) = Some m ->
  group m 1 = pre.
Proof.
  intros Hpre Hocc. unfold re_search. cbn [anchored ret_re items].
  rewrite match_at_here. unfold here. cbn [app].
  rewrite match_GOpen, match_greedy.
  destruct (rep_greedy dot 0 _ 0 _) as [[gs rest]|] eqn:E; [|done].
  intros [= <-].
  apply rep_greedy_maximal in E as (run & rest' & Hs & Hrun & _ & Hk & Hmax).
  rewrite match_GClose, <- (app_nil_r (lits name)), match_lits in Hk.
  destruct (startswith name rest') eqn:Hst; [|done].
  cbn [match_items rev app] in Hk. injection Hk as <- _.
  change (group (Match 0 _) 1)
    with (take (length (pre ++ name ++ tail) - length rest') (pre ++ name ++ tail)).
  rewrite Hs, take_app_minus.
  destruct (Nat.lt_trichotomy (length run) (length pre)) as [Hlt|[Heq|Hgt]].
  - specialize (Hmax pre (name ++ tail) eq_refl Hpre Hlt).
    rewrite match_GClose, <- (app_nil_r (lits name)), match_lits in Hmax.
    by rewrite startswith_app in Hmax.
  - apply (f_equal (take (length run))) in Hs.
    rewrite take_app_length in Hs. rewrite Heq, take_app_length in Hs. done.
  - assert (rest' = drop (length run - length pre) (name ++ tail)) as Hrest.
    { apply (f_equal (drop (length run))) in Hs.
      rewrite drop_app_length in Hs. rewrite <- Hs.
      replace (length run) with (length pre + (length run - length pre)) at 1 by lia.
      by rewrite <- drop_drop, drop_app_length. }
    rewrite Hrest in Hst.
    rewrite (startswith_drop_occurs name (name ++ tail) (length run - length pre))
      in Hocc; [done | lia | done].
Qed.






(** Behind an export macro the first parenthesised text of the declaration
    is the argument of the macro: the two parameters can be unpacked, and
    construction raises on the fragment read from the macro. *)
Example export_macro_parameters :
  (exists search m,
     re_search (func_re "eraFoo") export_c = Some search /\
     group search 1 = ("ERFA_EXPORT(double) eraFoo(double a, double b)" : str) /\
     re_search paren_re (group search 1) = Some m /\
     split "," (group m 1) = [("double" : str)]) /\
  Forall (fun f => well_formed f = true) (split "," ("double a, double b" : str)) /\
  Function_init (one_file export_c) "eraFoo" "erfa.c" None = Raise unpack_error.
Proof.
  split_and!.
  - eexists _, _. split_and!; by vm_compute.
  - by repeat constructor.
  - by vm_compute.
Qed.




(** X14: for a name made of word characters, the declaration kept by a
    constructed function is made of the text
    before the name on its line, the name, a space or nothing, and the
    parameters between parentheses.  When no parenthesis comes before the
    one of the parameters, the arguments are built from these parameters;
    when the name does not start again after its first character, the
    return type is the text before the name, stripped. *)
Theorem declaration_parts (fs : FileSystem) (name source_path : str)
    (match_line : option str) (f : Function) :
  all_in word name ->
  Function_init fs name source_path match_line = Ok f ->
  exists pre sp params,
    fn_cfunc f = pre ++ name ++ sp ++ "("%char :: params ++ [")"%char] /\
    contains nl pre = false /\ pre <> [] /\
    (sp = [] \/ sp = [" "%char]) /\
    contains ")" params = false /\ params <> [] /\
    (contains "(" (pre ++ name) = false ->
     exists arguments,
       built_from (fn_doc f) (split "," params) arguments /\
       fn_args f
       = map AArg arguments ++
         (if str_eqb (fn_ret f) "double"
          then [ARet (Return_init (fn_ret f) (fn_doc f))] else [])) /\
    (occurs name (drop 1 (name ++ sp ++ "("%char :: params ++ [")"%char])) = false ->
     fn_ret f = strip pre).
Proof.
  intros _
    (contents & search & m & m' & args & _ & Hsearch & Hm & Hm' & Hargs & ->)
    %Function_init_inv.
  unfold re_search in Hsearch. cbn [anchored func_re] in Hsearch.
  apply search_from_elim in Hsearch as (p & gs & rest & _ & -> & Hh & _).
  apply (func_re_parts name) in Hh
    as (pre & sp & params & Hpre & Hpre' & Hsp & Hparams & Hparams' & Hgs).
  assert (group (Match (0 + p) gs) 1
          = pre ++ name ++ sp ++ "("%char :: params ++ [")"%char]) as Hg.
  { unfold group. cbn [groups]. change (1 - 1) with 0.
    by rewrite <- head_lookup, Hgs. }
  rewrite Hg in Hm, Hm'.
  exists pre, sp, params. unfold assemble. cbn [fn_cfunc fn_doc fn_args fn_ret].
  split_and!; try done.
  - by apply all_in_not_chr.
  - by apply all_in_not_chr.
  - intros Hopen.
    replace (pre ++ name ++ sp ++ "("%char :: params ++ [")"%char])
      with ((pre ++ name ++ sp) ++ "("%char :: params ++ [")"%char]) in Hm
      by (by rewrite <- !app_assoc).
    rewrite paren_search_first in Hm; [|  | done | done].
    + injection Hm as <-. change (group (Match _ [params]) 1) with params in Hargs.
      apply append_arguments_inv in Hargs as (arguments & Hbuilt & ->).
      exists arguments. split; [done|]. cbn [app].
      destruct (str_eqb _ _); [done | by rewrite app_nil_r].
    + rewrite app_assoc, contains_app, Hopen.
      by destruct Hsp as [-> | ->].
  - intros Hocc. f_equal. by eapply ret_search_last.
Qed.

Lemma declaration_parts_witness :
  exists pre sp params,
    fn_cfunc sepp_function
    = pre ++ ("eraSepp" : str) ++ sp ++ "("%char :: params ++ [")"%char] /\
    contains nl pre = false /\ pre <> [] /\
    (sp = [] \/ sp = [" "%char]) /\
    contains ")" params = false /\ params <> [] /\
    (contains "(" (pre ++ ("eraSepp" : str)) = false ->
     exists arguments,
       built_from (fn_doc sepp_function) (split "," params) arguments /\
       fn_args sepp_function
       = map AArg arguments ++
         (if str_eqb (fn_ret sepp_function) "double"
          then [ARet (Return_init (fn_ret sepp_function) (fn_doc sepp_function))]
          else [])) /\
    (occurs "eraSepp"
       (drop 1 (("eraSepp" : str) ++ sp ++ "("%char :: params ++ [")"%char])) = false ->
     fn_ret sepp_function = strip pre).
Proof.
  apply (declaration_parts (one_file sepp_c) "eraSepp" "erfa.c" None sepp_function).
  - by repeat constructor.
  - vm_compute. reflexivity.
Defined.

(** ** The functions collected from the header *)

Lemma match_items_suffix (r : list item) (cur : str) (done : list str)
    (s : str) (gs : list str) (rest : str) :
  match_items r cur done s = Some (gs, rest) -> exists used, s = used ++ rest.
Proof.
  revert cur done s.
  induction r as [|[c|cls lo [|]|c| |] r IH]; intros cur done s.
  - intros [= _ ->]. by exists [].
  - intros (s' & -> & [used ->]%IH)%match_Lit_inv. by exists (c :: used).
  - rewrite match_greedy.
    intros (run & t & -> & _ & _ & [used ->]%IH)%rep_greedy_sound.
    exists (run ++ used). by rewrite app_assoc.
  - rewrite match_lazy.
    intros (run & t & -> & _ & _ & [used ->]%IH)%rep_lazy_sound.
    exists (run ++ used). by rewrite app_assoc.
  - intros (sp & s' & -> & _ & [used ->]%IH)%match_Opt_inv.
    exists (sp ++ used). by rewrite app_assoc.
  - rewrite match_GOpen. apply IH.
  - rewrite match_GClose. apply IH.
Qed.

Lemma search_rest_sound (r : list item) (s : str) (gs : list str) (rest : str) :
  search_rest r s = Some (gs, rest) ->
  exists pre t, s = pre ++ t /\ here r t = Some (gs, rest).
Proof.
  induction s as [|c s IH]; cbn [search_rest].
  - destruct (match_items r [] [] []) as [m|] eqn:E; [|done].
    intros [= ->]. by exists [], [].
  - destruct (match_items r (c :: s) [] (c :: s)) as [m|] eqn:E.
    + intros [= ->]. by exists [], (c :: s).
    + intros (pre & t & -> & H)%IH. by exists (c :: pre), t.
Qed.

(** A match of a pattern that starts with a literal leaves a shorter text. *)
Lemma search_rest_shorter (c : ascii) (r : list item) (s : str)
    (gs : list str) (rest : str) :
  search_rest (Lit c :: r) s = Some (gs, rest) -> length rest < length s.
Proof.
  intros (pre & t & -> & H)%search_rest_sound. unfold here in H.
  apply match_Lit_inv in H as (t' & -> & [used ->]%match_items_suffix).
  rewrite !length_app. simpl. rewrite length_app. lia.
Qed.

(** More steps than the length of the text change nothing. *)
Lemma findall_go_fuel (c : ascii) (r : list item) (n m : nat) (s : str) :
  length s <= n -> length s <= m ->
  findall_go n (Lit c :: r) s = findall_go m (Lit c :: r) s.
Proof.
  revert m s. induction n as [|n IH]; intros m s Hn Hm.
  - destruct s; [|simpl in Hn; lia]. by destruct m.
  - destruct m as [|m].
    + destruct s; [|simpl in Hm; lia]. done.
    + cbn [findall_go].
      destruct (search_rest (Lit c :: r) s) as [[gs rest]|] eqn:E; [|done].
      apply search_rest_shorter in E. f_equal. apply IH; lia.
Qed.

Lemma findall_go_elem (fuel : nat) (r : list item) (s : str) (gs : list str) :
  gs ∈ findall_go fuel r s ->
  exists pre t rest, s = pre ++ t /\ here r t = Some (gs, rest).
Proof.
  revert s. induction fuel as [|fuel IH]; intros s; cbn [findall_go].
  - by intros ?%elem_of_nil.
  - destruct (search_rest r s) as [[gs0 rest0]|] eqn:E; [|by intros ?%elem_of_nil].
    apply search_rest_sound in E as (pre & t & -> & Ht).
    intros [->|Hin]%elem_of_cons.
    + by exists pre, t, rest0.
    + apply IH in Hin as (pre' & t' & rest' & -> & Ht').
      apply match_items_suffix in Ht as [used ->].
      exists (pre ++ used ++ pre'), t', rest'. by rewrite <- !app_assoc.
Qed.

Lemma word_not (c : ascii) : word c = true -> c <> nl /\ c <> "("%char /\ c <> " "%char.
Proof. intros H. split_and!; by intros ->. Qed.

(** A name found in a section is a non-empty run of word characters that
    occurs in it. *)
Lemma func_names_elem (functions name : str) :
  name ∈ func_names functions ->
  all_in word name /\ name <> [] /\ occurs name functions = true.
Proof.
  unfold func_names, findall.
  intros (gs & -> & (pre & t & rest & Hs & H)%findall_go_elem)%list_elem_of_fmap.
  unfold here in H. cbn [names_re items] in H.
  apply match_Lit_inv in H as (t1 & -> & H).
  rewrite match_GOpen, match_greedy in H.
  apply rep_greedy_sound in H as (name & t2 & -> & Hname & Hlen & H).
  rewrite match_GClose, take_app_minus in H.
  apply match_Lit_inv in H as (t3 & -> & H).
  rewrite match_lazy in H.
  apply rep_lazy_sound in H as (run & t4 & -> & _ & _ & H).
  apply match_Lit_inv in H as (t5 & -> & H).
  apply match_Lit_inv in H as (t6 & -> & H).
  cbn [match_items rev app] in H. injection H as <- _.
  cbn [head default id]. split_and!.
  - done.
  - destruct name; [simpl in Hlen; lia | done].
  - apply occurs_spec. exists (pre ++ [" "%char]), ("("%char :: run ++ ")"%char :: ";"%char :: t6).
    rewrite Hs, <- !app_assoc. done.
Qed.

Lemma contains_occurs (c : ascii) (s : str) : occurs [c] s = contains c s.
Proof.
  induction s as [|d s IH]; [done|]. cbn [occurs contains existsb].
  fold (contains c s). rewrite IH. cbn [startswith]. by rewrite andb_true_r.
Qed.

Lemma split_chr_absent (c : ascii) (s : str) :
  contains c s = false -> split [c] s = [s].
Proof.
  intros H. unfold split. rewrite split_go_absent; [done|].
  by rewrite contains_occurs.
Qed.

Lemma split_chr_cons (c : ascii) (base rest : str) :
  contains c base = false ->
  split [c] (base ++ c :: rest) = base :: split [c] rest.
Proof. intros H. unfold split. by rewrite split_go_chr. Qed.

Lemma contains_true_split (c : ascii) (s : str) :
  contains c s = true ->
  exists base rest, s = base ++ c :: rest /\ contains c base = false.
Proof.
  intros H. pose proof (partition_chr c s) as Hp.
  destruct (partition [c] s) as [[a b]|]; [|congruence].
  destruct Hp as [-> Ha]. by exists a, b.
Qed.

(** A text without newline that occurs in [s] occurs in one of its lines. *)
Lemma occurs_line (p s : str) :
  contains nl p = false -> occurs p s = true ->
  exists line, line ∈ split [nl] s /\ occurs p line = true.
Proof.
  intros Hp. remember (length s) as n eqn:Hn. revert s Hn.
  induction (lt_wf n) as [n _ IH]; intros s -> Ho.
  destruct (contains nl s) eqn:Hc.
  - apply contains_true_split in Hc as (base & rest & -> & Hbase).
    rewrite split_chr_cons by done.
    apply occurs_spec in Ho as (a & b & Hs).
    assert (occurs p base = true \/ occurs p rest = true) as [Hb|Hr].
    { symmetry in Hs. apply app_eq_app in Hs as [l [[-> Hl]|[-> Hl]]].
      - destruct l as [|d l].
        + destruct p as [|d p].
          * left. apply occurs_spec. by exists [], base.
          * injection Hl as <- _. pose proof (contains_middle nl [] p) as Hm.
            cbn [app] in Hm. congruence.
        + injection Hl as <- ->. right. apply occurs_spec. by exists l, b.
      - apply app_eq_app in Hl as [l' [[-> Hl']|[-> Hl']]].
        + destruct l' as [|d l'].
          * left. apply occurs_spec. exists a, []. by rewrite !app_nil_r.
          * injection Hl' as <- _. by rewrite contains_middle in Hp.
        + left. apply occurs_spec. by exists a, l'. }
    + exists base. split; [by left | done].
    + destruct (IH (length rest)) with (s := rest) as (line & Hin & Hl);
        [rewrite length_app; simpl; lia | done | done |].
      exists line. split; [by right | done].
  - exists s. rewrite split_chr_absent by done. split; [by left | done].
Qed.

Lemma find_declaration_found (fs : FileSystem) (srcdir name : str)
    (funcs : list Function) (lines : list str) :
  (exists line, line ∈ lines /\ occurs name line = true) ->
  exists before line after,
    lines = before ++ line :: after /\
    Forall (fun l => occurs name l = false) before /\
    occurs name line = true /\
    find_declaration fs srcdir name funcs lines
    = (f ← Function_init fs name srcdir (Some (match_line_of line));
       Ok (funcs ++ [f])).
Proof.
  induction lines as [|l lines IH]; intros (line & Hin & Ho).
  - by apply elem_of_nil in Hin.
  - cbn [find_declaration]. destruct (occurs name l) eqn:E.
    + by exists [], l, lines.
    + apply elem_of_cons in Hin as [->|Hin]; [congruence|].
      destruct IH as (before & line' & after & -> & Hb & Ho' & Hf); [by exists line|].
      exists (l :: before), line', after. split_and!; try done. by constructor.
Qed.

Lemma Function_init_raises (fs : FileSystem) (name source_path : str)
    (match_line : option str) (e : exn) :
  Function_init fs name source_path match_line = Raise e -> construction_error e.
Proof.
  intros He. unfold construction_error.
  destruct (read_contents fs (Function_filepath fs name source_path) match_line)
    as [contents|e'] eqn:Hread.
  - destruct (re_search (func_re name) contents) as [search|] eqn:Hsearch.
    + destruct (located_searches _ _ _ Hsearch) as [[m Hm] [m' Hm']].
      rewrite (Function_init_located _ _ _ _ _ _ _ _ Hread Hsearch Hm Hm') in He.
      destruct (Forall_or_Exists_ill_formed (split "," (group m 1))) as [Hwf|Hbad].
      * destruct (append_arguments_ok (FunctionDoc_init (group search 2)) _ [] Hwf)
          as (arguments & _ & Hfor).
        by rewrite Hfor, bind_Ok in He.
      * rewrite append_arguments_raise in He by done.
        rewrite bind_Raise in He. injection He as <-. by do 3 right.
    + rewrite (Function_init_not_located _ _ _ _ contents) in He by done.
      injection He as <-. do 2 right. by left.
  - assert (e = e') as <-.
    { unfold Function_init in He. rewrite Hread in He. by injection He. }
    unfold read_contents in Hread.
    destruct (read_file fs _) as [text|].
    + destruct (truthy match_line) as [l|]; [|done].
      destruct (skip_to l (readlines text)); [done|].
      injection Hread as <-. right. left. by eexists _, _.
    + injection Hread as <-. left. by eexists.
Qed.

Lemma construction_error_possible (e : exn) :
  construction_error e -> e <> impossible_error.
Proof. by intros [[? ->]|[(? & ? & ->)|[->| ->]]]. Qed.

Lemma for_each_raise {A S} (body : S -> A -> result S) (l : list A) (st : S)
    (e : exn) :
  for_each body l st = Raise e ->
  exists x st', x ∈ l /\ body st' x = Raise e.
Proof.
  revert st. induction l as [|x l IH]; intros st; [done|].
  rewrite for_each_cons. destruct (body st x) as [st'|e'] eqn:E.
  - rewrite bind_Ok. intros (y & st'' & Hin & H)%IH.
    exists y, st''. split; [by right | done].
  - rewrite bind_Raise. intros [= <-]. exists x, st. split; [by left | done].
Qed.

Lemma add_function_raises (fs : FileSystem) (srcdir : str) (multifilserc : bool)
    (functions : str) (funcs : list Function) (name : str) (e : exn) :
  name ∈ func_names functions ->
  add_function fs srcdir multifilserc functions funcs name = Raise e ->
  construction_error e.
Proof.
  intros (Hw & _ & Ho)%func_names_elem. unfold add_function.
  destruct multifilserc.
  - destruct (Function_init fs name srcdir None) as [f|e'] eqn:E; [done|].
    rewrite bind_Raise. intros [= <-]. by eapply Function_init_raises.
  - destruct (find_declaration_found fs srcdir name funcs (split [nl] functions))
      as (_ & line & _ & _ & _ & _ & ->).
    { apply occurs_line; [|done].
      destruct (contains nl name) eqn:Hc; [|done].
      apply contains_true_split in Hc as (a & b & -> & _).
      apply Forall_app in Hw as [_ Hw]. by apply Forall_cons_1 in Hw as [? _]. }
    destruct (Function_init fs name srcdir _) as [f|e'] eqn:E; [done|].
    rewrite bind_Raise. intros [= <-]. by eapply Function_init_raises.
Qed.

(** X15: whatever the header and the sources, the collection of the
    functions raises only what the construction of a function raises, or the
    error of a header that cannot be opened: the error of a name that is in
    no line of its section is never raised. *)
Theorem main_funcs_errors (fs : FileSystem) (srcdir : str) (e : exn) :
  main_funcs fs srcdir = Raise e ->
  construction_error e /\ e <> impossible_error.
Proof.
  intros H. assert (construction_error e) as He;
    [|split; [done | by apply construction_error_possible]].
  unfold main_funcs in H.
  destruct (read_file fs (erfahfn fs srcdir)) as [erfa_h|].
  - apply for_each_raise in H as (found & funcs & _ & H).
    unfold add_functions in H.
    destruct found as [|section [|subsection [|functions [|]]]]; try done.
    destruct (str_eqb section "Astronomy"); [|done].
    apply for_each_raise in H as (name & funcs' & Hin & H).
    by eapply add_function_raises.
  - injection H as <-. left. by eexists.
Qed.

(** A header whose first function is not in the source file. *)
Lemma main_funcs_errors_witness :
  construction_error (match_line_error "double eraEpb" "erfa.c") /\
  match_line_error "double eraEpb" "erfa.c" <> impossible_error.
Proof.
  apply (main_funcs_errors (two_files epoch_h sepp_c) "erfa.c").
  vm_compute. reflexivity.
Defined.

Lemma Function_init_name (fs : FileSystem) (name source_path : str)
    (match_line : option str) (f : Function) :
  Function_init fs name source_path match_line = Ok f -> fn_name f = name.
Proof. by intros (? & ? & ? & ? & ? & _ & _ & _ & _ & _ & ->)%Function_init_inv. Qed.

Lemma find_declaration_name (fs : FileSystem) (srcdir name : str)
    (funcs funcs' : list Function) (lines : list str) :
  find_declaration fs srcdir name funcs lines = Ok funcs' ->
  exists f, funcs' = funcs ++ [f] /\ fn_name f = name.
Proof.
  induction lines as [|l lines IH]; cbn [find_declaration]; [done|].
  destruct (occurs name l); [|done].
  destruct (Function_init fs name srcdir _) as [f|] eqn:E; [|done].
  rewrite bind_Ok. intros [= <-]. exists f. split; [done|].
  by eapply Function_init_name.
Qed.

Lemma add_function_name (fs : FileSystem) (srcdir : str) (multifilserc : bool)
    (functions : str) (funcs funcs' : list Function) (name : str) :
  add_function fs srcdir multifilserc functions funcs name = Ok funcs' ->
  exists f, funcs' = funcs ++ [f] /\ fn_name f = name.
Proof.
  unfold add_function. destruct multifilserc.
  - destruct (Function_init fs name srcdir None) as [f|] eqn:E; [|done].
    rewrite bind_Ok. intros [= <-]. exists f. split; [done|].
    by eapply Function_init_name.
  - apply find_declaration_name.
Qed.

Lemma add_function_names (fs : FileSystem) (srcdir : str) (multifilserc : bool)
    (functions : str) (names : list str) (funcs funcs' : list Function) :
  for_each (add_function fs srcdir multifilserc functions) names funcs = Ok funcs' ->
  map fn_name funcs' = map fn_name funcs ++ names.
Proof.
  revert funcs. induction names as [|name names IH]; intros funcs.
  - intros [= <-]. by rewrite app_nil_r.
  - rewrite for_each_cons.
    destruct (add_function fs srcdir multifilserc functions funcs name)
      as [funcs1|] eqn:E; [|done].
    rewrite bind_Ok. intros ->%IH.
    apply add_function_name in E as (f & -> & <-).
    rewrite map_app. cbn [map]. by rewrite <- app_assoc.
Qed.

Lemma add_functions_names (fs : FileSystem) (srcdir : str) (multifilserc : bool)
    (funcs funcs' : list Function) (found : list str) :
  add_functions fs srcdir multifilserc funcs found = Ok funcs' ->
  map fn_name funcs' = map fn_name funcs ++ section_names found.
Proof.
  unfold add_functions, section_names.
  destruct found as [|section [|subsection [|functions [|]]]];
    try (intros [= <-]; by rewrite app_nil_r).
  destruct (str_eqb section "Astronomy").
  - apply add_function_names.
  - intros [= <-]. by rewrite app_nil_r.
Qed.

Lemma sections_names (fs : FileSystem) (srcdir : str) (multifilserc : bool)
    (sections : list (list str)) (funcs funcs' : list Function) :
  for_each (add_functions fs srcdir multifilserc) sections funcs = Ok funcs' ->
  map fn_name funcs' = map fn_name funcs ++ concat (map section_names sections).
Proof.
  revert funcs. induction sections as [|found sections IH]; intros funcs.
  - intros [= <-]. by rewrite app_nil_r.
  - rewrite for_each_cons.
    destruct (add_functions fs srcdir multifilserc funcs found) as [funcs1|] eqn:E;
      [|done].
    rewrite bind_Ok. intros ->%IH. apply add_functions_names in E as ->.
    cbn [map concat]. by rewrite <- app_assoc.
Qed.

(** X16: when the collection succeeds, the header could be read and there
    is one function for each name declared in its Astronomy sections, in the
    order of the header; the other sections give none. *)
Theorem main_funcs_names (fs : FileSystem) (srcdir : str) (funcs : list Function) :
  main_funcs fs srcdir = Ok funcs ->
  exists erfa_h,
    read_file fs (erfahfn fs srcdir) = Some erfa_h /\
    map fn_name funcs = declared_names erfa_h /\
    Forall (fun f => all_in word (fn_name f) /\ fn_name f <> []) funcs.
Proof.
  unfold main_funcs.
  destruct (read_file fs (erfahfn fs srcdir)) as [erfa_h|]; [|done].
  intros Hnames%sections_names. exists erfa_h. split; [done|].
  cbn [map app] in Hnames. split; [done|].
  assert (Forall (fun n => all_in word n /\ n <> []) (map fn_name funcs)) as H;
    [|by apply Forall_fmap in H].
  rewrite Hnames. unfold declared_names.
  apply Forall_forall. intros name Hname.
  apply list_elem_of_In, in_concat in Hname as (names & Hfound & Hin).
  apply list_elem_of_In in Hfound, Hin.
  apply list_elem_of_fmap in Hfound as (found & -> & _).
  unfold section_names in Hin.
  destruct found as [|section [|subsection [|functions [|]]]];
    try by apply elem_of_nil in Hin.
  destruct (str_eqb section "Astronomy"); [|by apply elem_of_nil in Hin].
  by apply func_names_elem in Hin as (? & ? & _).
Qed.

(** The two epochs of the sample header. *)
Lemma main_funcs_names_witness :
  exists erfa_h,
    read_file (two_files epoch_h epoch_c) (erfahfn (two_files epoch_h epoch_c) "erfa.c")
    = Some erfa_h /\
    map fn_name epoch_funcs = declared_names erfa_h /\
    Forall (fun f => all_in word (fn_name f) /\ fn_name f <> []) epoch_funcs.
Proof.
  apply (main_funcs_names (two_files epoch_h epoch_c) "erfa.c" epoch_funcs).
  vm_compute. reflexivity.
Defined.

Lemma match_line_of_paren (pre post : str) :
  contains "(" pre = false -> match_line_of (pre ++ "("%char :: post) = pre.
Proof.
  intros Hpre. unfold match_line_of. rewrite removelast_app by done.
  cbn [list_ascii_of_string].
  destruct post as [|c post].
  - cbn [removelast]. rewrite app_nil_r. by rewrite split_chr_absent.
  - change (removelast ("("%char :: c :: post))
      with ("("%char :: removelast (c :: post)).
    by rewrite (split_head_chr "(" pre).
Qed.

Lemma find_declaration_skip (fs : FileSystem) (srcdir name : str)
    (funcs : list Function) (before : list str) (lines : list str) :
  Forall (fun l => occurs name l = false) before ->
  find_declaration fs srcdir name funcs (before ++ lines)
  = find_declaration fs srcdir name funcs lines.
Proof.
  induction 1 as [|l before Hl _ IH]; [done|].
  cbn [app find_declaration]. by rewrite Hl.
Qed.

(** X17: with a single source file, the function of a name is looked up
    from the first line of its header section that contains the name, and
    the [match_line] passed on is that line up to its first opening
    parenthesis, whether or not the line ends with a semicolon. *)
Theorem single_file_match_line (fs : FileSystem) (srcdir functions name : str)
    (funcs : list Function) (before after : list str) (pre post : str) :
  split [nl] functions = before ++ (pre ++ "("%char :: post) :: after ->
  Forall (fun l => occurs name l = false) before ->
  occurs name (pre ++ "("%char :: post) = true ->
  contains "(" pre = false ->
  add_function fs srcdir false functions funcs name
  = (f ← Function_init fs name srcdir (Some pre); Ok (funcs ++ [f])).
Proof.
  intros Hlines Hbefore Hline Hpre. unfold add_function.
  rewrite Hlines, find_declaration_skip by done.
  cbn [find_declaration]. by rewrite Hline, match_line_of_paren.
Qed.

(** The second declaration of the sample header. *)
Lemma single_file_match_line_witness :
  add_function (two_files epoch_h epoch_c) "erfa.c" false
    (("double eraEpb(double dj1, double dj2);" : str) ++ [nl] ++
     ("double eraEpj(double dj1, double dj2);" : str)) [] "eraEpj"
  = (f ← Function_init (two_files epoch_h epoch_c) "eraEpj" "erfa.c"
           (Some ("double eraEpj" : str));
     Ok ([] ++ [f])).
Proof.
  apply (single_file_match_line (two_files epoch_h epoch_c) "erfa.c" _ "eraEpj" []
           [("double eraEpb(double dj1, double dj2);" : str)] []
           "double eraEpj" "double dj1, double dj2);").
  - vm_compute. reflexivity.
  - by repeat constructor.
  - vm_compute. reflexivity.
  - vm_compute. reflexivity.
Defined.
